(** * Snowflake identifier generator (main.go)

    A shallow embedding of the generator of [main.go]: the bit-layout
    constants, the constructor [NewSnowflake] and the method [Generate].

    - Go's [int64] is modelled as [Z]; every operation that can leave the
      64-bit range ([+], [-], [<<]) is followed by [wrap64], the two's
      complement reduction into [-2^63, 2^63).
    - [time.Now().UnixMilli()] is the only input of [Generate].  A clock is
      the list of the values successive reads return; [Generate] consumes the
      readings it makes and hands back the remaining ones.  The busy-wait of
      [Generate] may read the clock any number of times, so it is the clock
      list that bounds it: when the readings run out before the loop exits
      the model returns [None] (the Go code would still be spinning).
    - The mutex makes [Generate] one critical section; the model is the
      sequential behaviour of that section. *)

From Stdlib Require Import ZArith List Lia Bool Sorted String Zbitwise.
Import ListNotations.
Local Open Scope Z_scope.

(** ** 64-bit integers *)

Definition wrap64 (x : Z) : Z := (x + 2 ^ 63) mod 2 ^ 64 - 2 ^ 63.

Definition add64 (a b : Z) : Z := wrap64 (a + b).
Definition sub64 (a b : Z) : Z := wrap64 (a - b).
Definition shl64 (a n : Z) : Z := wrap64 (Z.shiftl a n).

(** The value of an [int64] read as an unsigned 64-bit integer. *)
Definition uint64 (x : Z) : Z := x mod 2 ^ 64.

(** ** Constants *)

Definition epoch : Z := 1629980400000.
Definition machineBits : Z := 5.
Definition dataCenterBits : Z := 5.
Definition sequenceBits : Z := 12.

Definition maxMachineID : Z := Z.lxor (-1) (Z.shiftl (-1) machineBits).
Definition maxDataCenterID : Z := Z.lxor (-1) (Z.shiftl (-1) dataCenterBits).
Definition maxSequence : Z := Z.lxor (-1) (Z.shiftl (-1) sequenceBits).

Definition machineShift : Z := sequenceBits.
Definition dataCenterShift : Z := sequenceBits + machineBits.
Definition timestampShift : Z := sequenceBits + machineBits + dataCenterBits.

(** ** The generator *)

Record Snowflake : Type := mkSnowflake {
  machineID : Z;
  dataCenterID : Z;
  sequence : Z;
  lastTimestamp : Z
}.

(** [fmt.Errorf format arg]: the format string and its one argument. *)
Inductive error : Type :=
| Errorf (format : string) (arg : Z).

Definition NewSnowflake (machineID dataCenterID : Z)
  : option Snowflake * option error :=
  if (machineID <? 0) || (machineID >? maxMachineID) then
    (None, Some (Errorf "machine ID must be between 0 and %d" maxMachineID))
  else if (dataCenterID <? 0) || (dataCenterID >? maxDataCenterID) then
    (None, Some (Errorf "data center ID must be between 0 and %d" maxDataCenterID))
  else
    (Some {| machineID := machineID; dataCenterID := dataCenterID;
             sequence := 0; lastTimestamp := 0 |}, None).

(** ** The clock *)

Definition Clock : Type := list Z.

(** [time.Now().UnixMilli() - epoch] for a reading [now]. *)
Definition timestampOf (now : Z) : Z := sub64 now epoch.

(** The loop [for timestamp == s.lastTimestamp { timestamp = now() - epoch }]:
    the timestamp it exits with and the readings left. *)
Fixpoint waitNextMilli (last timestamp : Z) (clock : Clock) {struct clock}
  : option (Z * Clock) :=
  if timestamp =? last then
    match clock with
    | [] => None
    | now :: rest => waitNextMilli last (timestampOf now) rest
    end
  else Some (timestamp, clock).

(** The identifier built on the last line of [Generate]. *)
Definition compose (timestamp dc machine seq : Z) : Z :=
  Z.lor (Z.lor (Z.lor (shl64 timestamp timestampShift)
                      (shl64 dc dataCenterShift))
               (shl64 machine machineShift))
        seq.

Definition withSequence (s : Snowflake) (q : Z) : Snowflake :=
  {| machineID := machineID s; dataCenterID := dataCenterID s;
     sequence := q; lastTimestamp := lastTimestamp s |}.

Definition withLastTimestamp (s : Snowflake) (t : Z) : Snowflake :=
  {| machineID := machineID s; dataCenterID := dataCenterID s;
     sequence := sequence s; lastTimestamp := t |}.

(** What one call returns: the identifier, the error, the generator after the
    call and the readings the call did not use. *)
Definition Outcome : Type := (Z * option error * Snowflake * Clock)%type.

Definition outId (o : Outcome) : Z := fst (fst (fst o)).
Definition outErr (o : Outcome) : option error := snd (fst (fst o)).
Definition outState (o : Outcome) : Snowflake := snd (fst o).
Definition outClock (o : Outcome) : Clock := snd o.

(** [(s.sequence + 1) & maxSequence]. *)
Definition nextSequence (q : Z) : Z := Z.land (add64 q 1) maxSequence.

(** The two branches of [Generate] before [lastTimestamp] is updated: the
    generator with its new sequence, the timestamp to use and the readings
    left. *)
Definition advance (s : Snowflake) (timestamp : Z) (clock : Clock)
  : option (Snowflake * Z * Clock) :=
  if timestamp =? lastTimestamp s then
    let s1 := withSequence s (nextSequence (sequence s)) in
    if sequence s1 =? 0 then
      match waitNextMilli (lastTimestamp s1) timestamp clock with
      | Some (timestamp', clock') => Some (s1, timestamp', clock')
      | None => None
      end
    else Some (s1, timestamp, clock)
  else Some (withSequence s 0, timestamp, clock).

Definition Generate (s : Snowflake) (clock : Clock) : option Outcome :=
  match clock with
  | [] => None
  | now :: clock1 =>
    match advance s (timestampOf now) clock1 with
    | None => None
    | Some (s2, timestamp, clock2) =>
      let s3 := withLastTimestamp s2 timestamp in
      let id := compose timestamp (dataCenterID s3) (machineID s3) (sequence s3) in
      Some (id, None, s3, clock2)
    end
  end.

(** [n] calls in a row on one generator: for each call, the identifier it
    returned and the generator after it. *)
Fixpoint run (n : nat) (s : Snowflake) (clock : Clock)
  : option (list (Z * Snowflake) * Snowflake * Clock) :=
  match n with
  | O => Some ([], s, clock)
  | S n' =>
    match Generate s clock with
    | None => None
    | Some (id, _, s1, clock1) =>
      match run n' s1 clock1 with
      | None => None
      | Some (trace, s2, clock2) => Some ((id, s1) :: trace, s2, clock2)
      end
    end
  end.

(** ** Reading an identifier back

    The source only packs; these are the inverse shifts and masks of the
    layout, applied to the identifier as an unsigned 64-bit value. *)

Definition timestampField (id : Z) : Z := Z.shiftr (uint64 id) timestampShift.
Definition dataCenterField (id : Z) : Z :=
  Z.land (Z.shiftr id dataCenterShift) maxDataCenterID.
Definition machineField (id : Z) : Z :=
  Z.land (Z.shiftr id machineShift) maxMachineID.
Definition sequenceField (id : Z) : Z := Z.land id maxSequence.

Definition fresh11 : Snowflake :=
  {| machineID := 1; dataCenterID := 1; sequence := 0; lastTimestamp := 0 |}.

(** A configuration accepted by [NewSnowflake]. *)
Definition validConfig (s : Snowflake) : Prop :=
  0 <= machineID s <= maxMachineID /\ 0 <= dataCenterID s <= maxDataCenterID.

Definition validSequence (q : Z) : Prop := 0 <= q <= maxSequence.

(** The 42-bit two's complement reading of a timestamp: what is left of it
    once it has been shifted by [timestampShift] inside 64 bits. *)
Definition signed42 (t : Z) : Z := (t + 2 ^ 41) mod 2 ^ 42 - 2 ^ 41.

(** ** Runs of a generator *)

(** The generators a sequence of [Generate] calls leads to from [s0],
    whatever the clock does. *)
Inductive reaches (s0 : Snowflake) : Snowflake -> Prop :=
| reaches_here : reaches s0 s0
| reaches_call (s : Snowflake) (clock : Clock) (o : Outcome) :
    reaches s0 s -> Generate s clock = Some o -> reaches s0 (outState o).

(** The observed timestamps never go below [last] and never decrease. *)
Definition steady (last : Z) (clock : Clock) : Prop :=
  StronglySorted Z.le (last :: map timestampOf clock).

(** The timestamps that fit the bits above [timestampShift] of an unsigned
    64-bit identifier. *)
Definition fitsTimestamp (t : Z) : Prop := 0 <= t < 2 ^ (64 - timestampShift).

(** The readings whose timestamp fits. *)
Definition inRange (now : Z) : Prop :=
  epoch <= now < epoch + 2 ^ (64 - timestampShift).

(** The four fields of a generator laid out as in an identifier. *)
Definition key (s : Snowflake) : Z :=
  lastTimestamp s * 2 ^ timestampShift + dataCenterID s * 2 ^ dataCenterShift
  + machineID s * 2 ^ machineShift + sequence s.

Definition idsOf (trace : list (Z * Snowflake)) : list Z := map fst trace.

Definition lastTimestampsOf (trace : list (Z * Snowflake)) : list Z :=
  map (fun e => lastTimestamp (snd e)) trace.

(** How many identifiers of a list carry the timestamp [t]. *)
Definition countTimestamp (t : Z) (ids : list Z) : nat :=
  List.length (filter (fun id => timestampField id =? t) ids).

(** A generator as the calls leave it: a valid configuration, a sequence
    within its 12 bits and a timestamp that fits. *)
Definition well (s : Snowflake) : Prop :=
  validConfig s /\ validSequence (sequence s) /\ fitsTimestamp (lastTimestamp s).

(** An identifier packed from fields that all fit. *)
Definition minted (dc m id : Z) : Prop :=
  exists t q : Z,
    fitsTimestamp t /\ validSequence q /\ id = compose t dc m q.

(** The (timestamp, sequence) pair an identifier carries. *)
Definition stamp (id : Z) : Z * Z := (timestampField id, sequenceField id).

(** ** The program *)

(** What [main] writes to standard output: one entry per call of
    [fmt.Println] (a message and an error) or [fmt.Printf] (a format and its
    argument). *)
Inductive output : Type :=
| Println (msg : string) (err : error)
| Printf (format : string) (arg : Z).

Definition newline : string := String (Ascii.ascii_of_nat 10) EmptyString.

Definition generatedFormat : string := ("Generated ID %d" ++ newline)%string.

(** The loop of [main] with [n] iterations to go: the lines written and the
    readings left.  An error of [Generate] ends the program after its line. *)
Fixpoint generateLoop (n : nat) (sf : Snowflake) (clock : Clock)
  : option (list output * Clock) :=
  match n with
  | O => Some ([], clock)
  | S n' =>
    match Generate sf clock with
    | None => None
    | Some (id, Some err, _, clock1) =>
      Some ([Println "Error generating ID:" err], clock1)
    | Some (id, None, sf1, clock1) =>
      match generateLoop n' sf1 clock1 with
      | None => None
      | Some (out, clock2) => Some (Printf generatedFormat id :: out, clock2)
      end
    end
  end.

(** [main]: a generator for machine 1 in data center 1, then ten identifiers.
    [NewSnowflake] returns a generator whenever its error is nil; were it not
    so the call [sf.Generate()] would panic on the nil pointer, and the model
    has no outcome there. *)
Definition main (clock : Clock) : option (list output * Clock) :=
  match NewSnowflake 1 1 with
  | (_, Some err) => Some ([Println "Error creating snowflake:" err], clock)
  | (Some sf, None) => generateLoop 10 sf clock
  | (None, None) => None
  end.

(** ** Arithmetic of the 64-bit operations *)

Lemma maxMachineID_eq : maxMachineID = 31.
Proof. reflexivity. Qed.

Lemma maxDataCenterID_eq : maxDataCenterID = 31.
Proof. reflexivity. Qed.

Lemma maxSequence_eq : maxSequence = 4095.
Proof. reflexivity. Qed.

Lemma wrap64_range (x : Z) : - 2 ^ 63 <= wrap64 x < 2 ^ 63.
Proof.
  unfold wrap64.
  assert (H := Z.mod_pos_bound (x + 2 ^ 63) (2 ^ 64) eq_refl).
  change (2 ^ 64) with (2 * 2 ^ 63) in *. lia.
Qed.

Lemma wrap64_small (x : Z) : - 2 ^ 63 <= x < 2 ^ 63 -> wrap64 x = x.
Proof.
  intros H. unfold wrap64.
  rewrite Z.mod_small; [lia|].
  change (2 ^ 64) with (2 * 2 ^ 63). lia.
Qed.

Lemma uint64_wrap64 (x : Z) : uint64 (wrap64 x) = x mod 2 ^ 64.
Proof.
  unfold uint64, wrap64.
  rewrite Zminus_mod_idemp_l.
  f_equal. lia.
Qed.

Lemma shl64_timestamp (t : Z) :
  shl64 t timestampShift = signed42 t * 2 ^ 22.
Proof.
  unfold shl64, wrap64, signed42, timestampShift,
    sequenceBits, machineBits, dataCenterBits.
  rewrite Z.shiftl_mul_pow2 by lia.
  change (12 + 5 + 5) with 22.
  replace (t * 2 ^ 22 + 2 ^ 63) with ((t + 2 ^ 41) * 2 ^ 22) by lia.
  change (2 ^ 64) with (2 ^ 42 * 2 ^ 22).
  rewrite Z.mul_mod_distr_r by lia.
  change (2 ^ 63) with (2 ^ 41 * 2 ^ 22). lia.
Qed.

Lemma signed42_mod (t : Z) : signed42 t mod 2 ^ 42 = t mod 2 ^ 42.
Proof.
  unfold signed42.
  rewrite Zminus_mod_idemp_l. f_equal. lia.
Qed.


Lemma land_shifted_low (a b n : Z) :
  0 <= n -> 0 <= b < 2 ^ n -> Z.land (a * 2 ^ n) b = 0.
Proof.
  intros Hn Hb. apply Z.bits_inj'. intros i Hi.
  rewrite Z.land_spec, Z.bits_0.
  destruct (Z_lt_le_dec i n) as [Hlt|Hge].
  - rewrite Z.mul_pow2_bits_low by lia. reflexivity.
  - rewrite <- (Z.mod_small b (2 ^ n)) by lia.
    rewrite Z.mod_pow2_bits_high by lia.
    apply andb_false_r.
Qed.

Lemma lor_shifted_low (a b n : Z) :
  0 <= n -> 0 <= b < 2 ^ n -> Z.lor (a * 2 ^ n) b = a * 2 ^ n + b.
Proof.
  intros Hn Hb.
  pose proof (Z.add_lor_land (a * 2 ^ n) b) as H.
  rewrite (land_shifted_low a b n Hn Hb) in H. lia.
Qed.

(** The bit-wise packing is a sum: the four fields do not overlap. *)
Lemma compose_sum (t dc m q : Z) :
  0 <= dc <= maxDataCenterID -> 0 <= m <= maxMachineID -> validSequence q ->
  compose t dc m q = signed42 t * 2 ^ 22 + dc * 2 ^ 17 + m * 2 ^ 12 + q.
Proof.
  unfold validSequence.
  rewrite maxDataCenterID_eq, maxMachineID_eq, maxSequence_eq.
  intros Hdc Hm Hq. unfold compose.
  rewrite shl64_timestamp.
  unfold shl64, dataCenterShift, machineShift, sequenceBits, machineBits.
  rewrite !Z.shiftl_mul_pow2 by lia.
  change (12 + 5) with 17.
  rewrite (wrap64_small (dc * 2 ^ 17)) by lia.
  rewrite (wrap64_small (m * 2 ^ 12)) by lia.
  rewrite (lor_shifted_low (signed42 t) (dc * 2 ^ 17) 22) by lia.
  replace (signed42 t * 2 ^ 22 + dc * 2 ^ 17)
    with ((signed42 t * 2 ^ 5 + dc) * 2 ^ 17) by lia.
  rewrite (lor_shifted_low _ (m * 2 ^ 12) 17) by lia.
  replace ((signed42 t * 2 ^ 5 + dc) * 2 ^ 17 + m * 2 ^ 12)
    with ((signed42 t * 2 ^ 10 + dc * 2 ^ 5 + m) * 2 ^ 12) by lia.
  rewrite (lor_shifted_low _ q 12) by lia.
  lia.
Qed.

Lemma uint64_compose (t dc m q : Z) :
  0 <= dc <= maxDataCenterID -> 0 <= m <= maxMachineID -> validSequence q ->
  uint64 (compose t dc m q) = (t mod 2 ^ 42) * 2 ^ 22 + dc * 2 ^ 17 + m * 2 ^ 12 + q.
Proof.
  intros Hdc Hm Hq. rewrite compose_sum by assumption.
  unfold validSequence in Hq.
  rewrite maxDataCenterID_eq in Hdc. rewrite maxMachineID_eq in Hm.
  rewrite maxSequence_eq in Hq.
  rewrite <- signed42_mod. unfold uint64.
  pose proof (Z.mod_pos_bound (signed42 t) (2 ^ 42) eq_refl) as Hb.
  rewrite (Z.div_mod (signed42 t) (2 ^ 42)) at 1 by lia.
  replace ((2 ^ 42 * (signed42 t / 2 ^ 42) + signed42 t mod 2 ^ 42) * 2 ^ 22
           + dc * 2 ^ 17 + m * 2 ^ 12 + q)
    with (signed42 t mod 2 ^ 42 * 2 ^ 22 + dc * 2 ^ 17 + m * 2 ^ 12 + q
          + (signed42 t / 2 ^ 42) * 2 ^ 64) by lia.
  rewrite Z.mod_add by lia.
  apply Z.mod_small. lia.
Qed.

Lemma timestampField_compose (t dc m q : Z) :
  0 <= dc <= maxDataCenterID -> 0 <= m <= maxMachineID -> validSequence q ->
  timestampField (compose t dc m q) = t mod 2 ^ 42.
Proof.
  intros Hdc Hm Hq. unfold timestampField.
  rewrite uint64_compose by assumption.
  unfold validSequence in Hq.
  rewrite maxDataCenterID_eq in Hdc. rewrite maxMachineID_eq in Hm.
  rewrite maxSequence_eq in Hq.
  unfold timestampShift, sequenceBits, machineBits, dataCenterBits.
  rewrite Z.shiftr_div_pow2 by lia. change (12 + 5 + 5) with 22.
  symmetry. apply (Z.div_unique _ _ _ (dc * 2 ^ 17 + m * 2 ^ 12 + q)); lia.
Qed.

Lemma dataCenterField_compose (t dc m q : Z) :
  0 <= dc <= maxDataCenterID -> 0 <= m <= maxMachineID -> validSequence q ->
  dataCenterField (compose t dc m q) = dc.
Proof.
  intros Hdc Hm Hq. unfold dataCenterField.
  rewrite compose_sum by assumption.
  unfold validSequence in Hq.
  rewrite maxDataCenterID_eq in *. rewrite maxMachineID_eq in Hm.
  rewrite maxSequence_eq in Hq.
  unfold dataCenterShift, sequenceBits, machineBits.
  rewrite Z.shiftr_div_pow2 by lia. change (12 + 5) with 17.
  change 31 with (Z.ones 5). rewrite Z.land_ones by lia.
  rewrite <- (Z.div_unique _ (2 ^ 17) (signed42 t * 2 ^ 5 + dc) (m * 2 ^ 12 + q))
    by lia.
  symmetry. apply (Z.mod_unique _ _ (signed42 t)); lia.
Qed.

Lemma machineField_compose (t dc m q : Z) :
  0 <= dc <= maxDataCenterID -> 0 <= m <= maxMachineID -> validSequence q ->
  machineField (compose t dc m q) = m.
Proof.
  intros Hdc Hm Hq. unfold machineField.
  rewrite compose_sum by assumption.
  unfold validSequence in Hq.
  rewrite maxDataCenterID_eq in Hdc. rewrite maxMachineID_eq in *.
  rewrite maxSequence_eq in Hq.
  unfold machineShift, sequenceBits.
  rewrite Z.shiftr_div_pow2 by lia.
  change 31 with (Z.ones 5). rewrite Z.land_ones by lia.
  rewrite <- (Z.div_unique _ (2 ^ 12) (signed42 t * 2 ^ 10 + dc * 2 ^ 5 + m) q)
    by lia.
  symmetry. apply (Z.mod_unique _ _ (signed42 t * 2 ^ 5 + dc)); lia.
Qed.

Lemma sequenceField_compose (t dc m q : Z) :
  0 <= dc <= maxDataCenterID -> 0 <= m <= maxMachineID -> validSequence q ->
  sequenceField (compose t dc m q) = q.
Proof.
  intros Hdc Hm Hq. unfold sequenceField.
  rewrite compose_sum by assumption.
  unfold validSequence in Hq.
  rewrite maxDataCenterID_eq in Hdc. rewrite maxMachineID_eq in Hm.
  rewrite maxSequence_eq in *.
  change 4095 with (Z.ones 12). rewrite Z.land_ones by lia.
  symmetry.
  apply (Z.mod_unique _ _ (signed42 t * 2 ^ 10 + dc * 2 ^ 5 + m)); lia.
Qed.

(** ** The sequence counter *)

Lemma nextSequence_mod (q : Z) : nextSequence q = (q + 1) mod 2 ^ sequenceBits.
Proof.
  unfold nextSequence, add64, wrap64, sequenceBits.
  rewrite maxSequence_eq. change 4095 with (Z.ones 12).
  rewrite Z.land_ones by lia.
  change (2 ^ 64) with 18446744073709551616.
  change (2 ^ 63) with 9223372036854775808.
  change (2 ^ 12) with 4096.
  Z.div_mod_to_equations. lia.
Qed.

Lemma nextSequence_valid (q : Z) : validSequence (nextSequence q).
Proof.
  unfold validSequence. rewrite nextSequence_mod, maxSequence_eq.
  unfold sequenceBits.
  pose proof (Z.mod_pos_bound (q + 1) (2 ^ 12) eq_refl). lia.
Qed.

Lemma nextSequence_succ (q : Z) :
  0 <= q < maxSequence -> nextSequence q = q + 1.
Proof.
  rewrite maxSequence_eq. intros H.
  rewrite nextSequence_mod. unfold sequenceBits.
  apply Z.mod_small. lia.
Qed.

Lemma nextSequence_wrap : nextSequence maxSequence = 0.
Proof. reflexivity. Qed.

(** ** The busy-wait *)

Lemma waitNextMilli_exit (last t : Z) (clock : Clock) :
  t <> last -> waitNextMilli last t clock = Some (t, clock).
Proof.
  intros H. destruct clock; simpl;
    (destruct (Z.eqb_spec t last); [contradiction|reflexivity]).
Qed.

Lemma waitNextMilli_read (last : Z) (now : Z) (rest : Clock) :
  waitNextMilli last last (now :: rest) = waitNextMilli last (timestampOf now) rest.
Proof. simpl. rewrite Z.eqb_refl. reflexivity. Qed.

(** The loop ends at the first reading whose timestamp is not [last]. *)
Lemma waitNextMilli_stalled (last : Z) (stalled : Clock) (now : Z) (rest : Clock) :
  Forall (fun r => timestampOf r = last) stalled ->
  timestampOf now <> last ->
  waitNextMilli last last (stalled ++ now :: rest) = Some (timestampOf now, rest).
Proof.
  intros Hst Hnow. induction Hst as [|r stalled Hr _ IH].
  - simpl app. rewrite waitNextMilli_read. apply waitNextMilli_exit, Hnow.
  - simpl app. rewrite waitNextMilli_read, Hr. exact IH.
Qed.

(** A clock that never leaves [last] keeps the loop spinning. *)
Lemma waitNextMilli_spin (last : Z) (clock : Clock) :
  Forall (fun r => timestampOf r = last) clock ->
  waitNextMilli last last clock = None.
Proof.
  induction 1 as [|r clock Hr _ IH].
  - simpl. rewrite Z.eqb_refl. reflexivity.
  - rewrite waitNextMilli_read, Hr. exact IH.
Qed.

(** What the loop has read when it ends. *)
Lemma waitNextMilli_inv (last : Z) (clock : Clock) (t t' : Z) (rest : Clock) :
  waitNextMilli last t clock = Some (t', rest) ->
  t' <> last /\
  ((t' = t /\ rest = clock) \/
   (t = last /\ exists stalled now,
      clock = stalled ++ now :: rest /\
      Forall (fun r => timestampOf r = last) stalled /\
      timestampOf now = t')).
Proof.
  revert t. induction clock as [|now clock IH]; intros t H; simpl in H.
  - destruct (Z.eqb_spec t last) as [E|E]; [discriminate|].
    inversion H; subst. split; [assumption|left; split; reflexivity].
  - destruct (Z.eqb_spec t last) as [E|E].
    + apply IH in H. destruct H as [Hne [[Ht Hr]|[Ht (st & n & Hc & Hst & Hn)]]].
      * split; [assumption|]. right. split; [assumption|].
        exists [], now. subst. simpl. repeat split; constructor.
      * split; [assumption|]. right. split; [assumption|].
        exists (now :: st), n. subst clock. simpl.
        repeat split; [constructor; assumption|assumption].
    + inversion H; subst. split; [assumption|left; split; reflexivity].
Qed.

(** ** The three paths of [Generate] *)

(** The observed timestamp differs from [lastTimestamp]: the [else] branch. *)
Lemma Generate_other_milli (s : Snowflake) (now : Z) (rest : Clock) :
  timestampOf now <> lastTimestamp s ->
  Generate s (now :: rest) =
  Some (compose (timestampOf now) (dataCenterID s) (machineID s) 0, None,
        {| machineID := machineID s; dataCenterID := dataCenterID s;
           sequence := 0; lastTimestamp := timestampOf now |}, rest).
Proof.
  intros H. unfold Generate, advance.
  destruct (Z.eqb_spec (timestampOf now) (lastTimestamp s)); [contradiction|].
  reflexivity.
Qed.

(** Same millisecond, the sequence does not wrap. *)
Lemma Generate_same_milli (s : Snowflake) (now : Z) (rest : Clock) :
  timestampOf now = lastTimestamp s ->
  nextSequence (sequence s) <> 0 ->
  Generate s (now :: rest) =
  Some (compose (lastTimestamp s) (dataCenterID s) (machineID s)
                (nextSequence (sequence s)), None,
        {| machineID := machineID s; dataCenterID := dataCenterID s;
           sequence := nextSequence (sequence s);
           lastTimestamp := lastTimestamp s |}, rest).
Proof.
  intros Ht Hq. unfold Generate, advance. rewrite Ht, Z.eqb_refl.
  cbn [sequence withSequence].
  destruct (Z.eqb_spec (nextSequence (sequence s)) 0); [contradiction|].
  reflexivity.
Qed.

(** Same millisecond, the sequence wraps: the call waits. *)
Lemma Generate_wrap (s : Snowflake) (now : Z) (clock : Clock) :
  timestampOf now = lastTimestamp s ->
  nextSequence (sequence s) = 0 ->
  Generate s (now :: clock) =
  match waitNextMilli (lastTimestamp s) (lastTimestamp s) clock with
  | Some (t, rest) =>
    Some (compose t (dataCenterID s) (machineID s) 0, None,
          {| machineID := machineID s; dataCenterID := dataCenterID s;
             sequence := 0; lastTimestamp := t |}, rest)
  | None => None
  end.
Proof.
  intros Ht Hq. unfold Generate, advance. rewrite Ht, Z.eqb_refl.
  cbn [sequence withSequence lastTimestamp].
  rewrite Hq. simpl (0 =? 0).
  cbv iota.
  destruct (waitNextMilli (lastTimestamp s) (lastTimestamp s) clock)
    as [[t rest]|]; reflexivity.
Qed.

(** Every call that returns falls in one of the three paths. *)
Lemma Generate_inv (s : Snowflake) (clock : Clock) (o : Outcome) :
  Generate s clock = Some o ->
  outErr o = None /\
  machineID (outState o) = machineID s /\
  dataCenterID (outState o) = dataCenterID s /\
  validSequence (sequence (outState o)) /\
  outId o = compose (lastTimestamp (outState o)) (dataCenterID s) (machineID s)
                    (sequence (outState o)).
Proof.
  destruct clock as [|now clock]; [discriminate|].
  destruct (Z.eq_dec (timestampOf now) (lastTimestamp s)) as [Ht|Ht].
  - destruct (Z.eq_dec (nextSequence (sequence s)) 0) as [Hq|Hq].
    + rewrite Generate_wrap by assumption.
      destruct (waitNextMilli _ _ clock) as [[t rest]|]; [|discriminate].
      intros H; inversion H; subst o; clear H. cbn.
      repeat split; try reflexivity; unfold validSequence; rewrite ?maxSequence_eq; lia.
    + rewrite Generate_same_milli by assumption.
      intros H; inversion H; subst o; clear H. cbn.
      repeat split; try reflexivity; apply nextSequence_valid.
  - rewrite Generate_other_milli by assumption.
    intros H; inversion H; subst o; clear H. cbn.
    repeat split; try reflexivity; unfold validSequence; rewrite ?maxSequence_eq; lia.
Qed.

(** ** Construction *)

Lemma NewSnowflake_ok (m dc : Z) :
  0 <= m <= maxMachineID -> 0 <= dc <= maxDataCenterID ->
  NewSnowflake m dc =
  (Some {| machineID := m; dataCenterID := dc; sequence := 0; lastTimestamp := 0 |},
   None).
Proof.
  intros Hm Hdc. unfold NewSnowflake.
  destruct (Z.ltb_spec m 0); [lia|].
  destruct (Z.gtb_spec m maxMachineID); [lia|].
  destruct (Z.ltb_spec dc 0); [lia|].
  destruct (Z.gtb_spec dc maxDataCenterID); [lia|].
  reflexivity.
Qed.

Lemma NewSnowflake_fail (m dc : Z) :
  ~ (0 <= m <= maxMachineID /\ 0 <= dc <= maxDataCenterID) ->
  exists e, NewSnowflake m dc = (None, Some e).
Proof.
  intros H. unfold NewSnowflake.
  destruct (Z.ltb_spec m 0); [eexists; reflexivity|].
  destruct (Z.gtb_spec m maxMachineID); [eexists; reflexivity|].
  destruct (Z.ltb_spec dc 0); [eexists; reflexivity|].
  destruct (Z.gtb_spec dc maxDataCenterID); [eexists; reflexivity|].
  exfalso. apply H. lia.
Qed.

Lemma NewSnowflake_inv (m dc : Z) (s : Snowflake) (e : option error) :
  NewSnowflake m dc = (Some s, e) ->
  e = None /\ 0 <= m <= maxMachineID /\ 0 <= dc <= maxDataCenterID /\
  s = {| machineID := m; dataCenterID := dc; sequence := 0; lastTimestamp := 0 |}.
Proof.
  intros H.
  destruct (Z_le_dec 0 m), (Z_le_dec m maxMachineID),
    (Z_le_dec 0 dc), (Z_le_dec dc maxDataCenterID);
    try (destruct (NewSnowflake_fail m dc) as [e' He]; [lia|];
         rewrite He in H; discriminate).
  rewrite NewSnowflake_ok in H by lia.
  inversion H; subst. repeat split; assumption.
Qed.

(** C5: construction fails, with an error and no generator, exactly when
    machineID or dataCenterID is outside [0, 2^5 - 1] = [0, 31].  Out-of-range
    arguments in either position are refused (-1 and 2^5), (0, 0) and
    (2^5 - 1, 2^5 - 1) are accepted, and the generator returned on success
    carries the two arguments with lastTimestamp = 0 and sequence = 0. *)
Theorem NewSnowflake_bounds :
  2 ^ machineBits - 1 = 31 /\ 2 ^ dataCenterBits - 1 = 31 /\
  (forall m dc : Z,
      (exists e, NewSnowflake m dc = (None, Some e)) <->
      ~ (0 <= m <= 2 ^ machineBits - 1 /\ 0 <= dc <= 2 ^ dataCenterBits - 1)) /\
  (forall m dc : Z,
      (exists s, NewSnowflake m dc = (Some s, None)) <->
      (0 <= m <= 2 ^ machineBits - 1 /\ 0 <= dc <= 2 ^ dataCenterBits - 1)) /\
  (forall (m dc : Z) (s : Snowflake) (e : option error),
      NewSnowflake m dc = (Some s, e) ->
      e = None /\ machineID s = m /\ dataCenterID s = dc /\
      lastTimestamp s = 0 /\ sequence s = 0) /\
  fst (NewSnowflake (-1) 0) = None /\ snd (NewSnowflake (-1) 0) <> None /\
  fst (NewSnowflake 0 (-1)) = None /\ snd (NewSnowflake 0 (-1)) <> None /\
  fst (NewSnowflake 0 (2 ^ dataCenterBits)) = None /\
  snd (NewSnowflake 0 (2 ^ dataCenterBits)) <> None /\
  fst (NewSnowflake (2 ^ machineBits) 0) = None /\
  snd (NewSnowflake (2 ^ machineBits) 0) <> None /\
  NewSnowflake 0 0 =
    (Some {| machineID := 0; dataCenterID := 0; sequence := 0; lastTimestamp := 0 |},
     None) /\
  NewSnowflake (2 ^ machineBits - 1) (2 ^ dataCenterBits - 1) =
    (Some {| machineID := 31; dataCenterID := 31; sequence := 0; lastTimestamp := 0 |},
     None).
Proof.
  split; [reflexivity|]. split; [reflexivity|].
  change (2 ^ machineBits - 1) with maxMachineID.
  change (2 ^ dataCenterBits - 1) with maxDataCenterID.
  split; [|split; [|split]].
  - intros m dc. split.
    + intros [e He] [Hm Hdc]. rewrite NewSnowflake_ok in He by assumption.
      discriminate.
    + apply NewSnowflake_fail.
  - intros m dc. split.
    + intros [s Hs]. apply NewSnowflake_inv in Hs. tauto.
    + intros [Hm Hdc]. eexists. apply NewSnowflake_ok; assumption.
  - intros m dc s e H. apply NewSnowflake_inv in H.
    destruct H as (He & _ & _ & ->). repeat split; assumption.
  - cbv. repeat split; discriminate.
Qed.

Lemma NewSnowflake_bounds_witness :
  NewSnowflake 7 9 =
  (Some {| machineID := 7; dataCenterID := 9; sequence := 0; lastTimestamp := 0 |},
   None) /\
  (exists e, NewSnowflake 32 9 = (None, Some e)).
Proof.
  destruct NewSnowflake_bounds as (_ & _ & Hfail & Hok & Hinv & _).
  split.
  - destruct (proj2 (Hok 7 9)) as [s Hs]; [cbv; intuition discriminate|].
    destruct (Hinv 7 9 s None Hs) as (_ & Hm & Hdc & Hl & Hq).
    destruct s as [m dc q l]. simpl in *. subst. exact Hs.
  - apply (proj2 (Hfail 32 9)). cbv. intros [[_ H] _]. apply H. reflexivity.
Defined.

(** ** One call *)

(** C9: the error result of [Generate] is nil on every path; a call returns
    (with a nil error and an identifier) as soon as the timestamp it observes
    differs from lastTimestamp, in particular when it is strictly less (a
    backward clock jump), or the sequence does not wrap, or some later reading
    leaves lastTimestamp so that the wait ends. *)
Theorem Generate_error_nil :
  (forall (s : Snowflake) (clock : Clock) (o : Outcome),
      Generate s clock = Some o -> outErr o = None) /\
  (forall (s : Snowflake) (now : Z) (clock : Clock),
      timestampOf now < lastTimestamp s ->
      exists (id : Z) (s' : Snowflake),
        Generate s (now :: clock) = Some (id, None, s', clock)) /\
  (forall (s : Snowflake) (now : Z) (clock : Clock),
      timestampOf now <> lastTimestamp s \/
      nextSequence (sequence s) <> 0 \/
      Exists (fun r => timestampOf r <> lastTimestamp s) clock ->
      exists (id : Z) (s' : Snowflake) (rest : Clock),
        Generate s (now :: clock) = Some (id, None, s', rest)).
Proof.
  split; [|split].
  - intros s clock o H. apply (Generate_inv s clock o H).
  - intros s now clock H. do 2 eexists.
    apply Generate_other_milli. lia.
  - intros s now clock H.
    destruct (Z.eq_dec (timestampOf now) (lastTimestamp s)) as [Ht|Ht].
    2:{ do 3 eexists. apply Generate_other_milli, Ht. }
    destruct (Z.eq_dec (nextSequence (sequence s)) 0) as [Hq|Hq].
    2:{ do 3 eexists. apply Generate_same_milli; assumption. }
    destruct H as [H|[H|H]]; [contradiction|contradiction|].
    rewrite Generate_wrap by assumption.
    assert (Hw : exists t rest,
               waitNextMilli (lastTimestamp s) (lastTimestamp s) clock
               = Some (t, rest)).
    { clear Ht Hq. induction H as [r clock Hr|r clock _ IH].
      - rewrite waitNextMilli_read. do 2 eexists.
        apply waitNextMilli_exit, Hr.
      - rewrite waitNextMilli_read.
        destruct (Z.eq_dec (timestampOf r) (lastTimestamp s)) as [E|E].
        + rewrite E. exact IH.
        + do 2 eexists. apply waitNextMilli_exit, E. }
    destruct Hw as (t & rest & ->). do 3 eexists. reflexivity.
Qed.

Lemma Generate_error_nil_witness :
  exists (id : Z) (s' : Snowflake),
    Generate {| machineID := 1; dataCenterID := 1; sequence := 3;
                lastTimestamp := 10 |} [epoch + 5]
    = Some (id, None, s', []).
Proof.
  apply (proj1 (proj2 Generate_error_nil)). vm_compute. reflexivity.
Defined.

(** C10: a call of [Generate] leaves machineID and dataCenterID as they
    were, whatever readings the clock gives; only sequence and lastTimestamp
    may differ afterwards. *)
Theorem Generate_frame (s : Snowflake) (clock : Clock) (o : Outcome) :
  Generate s clock = Some o ->
  machineID (outState o) = machineID s /\
  dataCenterID (outState o) = dataCenterID s.
Proof.
  intros H. destruct (Generate_inv s clock o H) as (_ & Hm & Hdc & _).
  split; assumption.
Qed.

Lemma Generate_frame_witness :
  machineID (outState (21106688, None,
     {| machineID := 1; dataCenterID := 1; sequence := 0; lastTimestamp := 5 |},
     [])) = 1 /\
  dataCenterID (outState (21106688, None,
     {| machineID := 1; dataCenterID := 1; sequence := 0; lastTimestamp := 5 |},
     [])) = 1.
Proof.
  apply (Generate_frame
           {| machineID := 1; dataCenterID := 1; sequence := 4095;
              lastTimestamp := 10 |}
           [epoch + 10; epoch + 10; epoch + 5]).
  vm_compute. reflexivity.
Defined.

(** C1 (as stated) fails: with lastTimestamp = 10 and a reading five
    milliseconds after the epoch, the observed timestamp 5 is strictly less
    than lastTimestamp, yet the call returns an identifier and a nil error. *)
Lemma Generate_no_ClockError :
  timestampOf (epoch + 5)
    < lastTimestamp {| machineID := 1; dataCenterID := 1; sequence := 3;
                       lastTimestamp := 10 |} /\
  Generate {| machineID := 1; dataCenterID := 1; sequence := 3;
              lastTimestamp := 10 |} [epoch + 5]
  = Some (21106688, None,
          {| machineID := 1; dataCenterID := 1; sequence := 0;
             lastTimestamp := 5 |}, []).
Proof. split; reflexivity. Qed.

(** C1 (amended): [Generate] never returns an error.  When the observed
    timestamp is strictly less than lastTimestamp the call takes the path of
    a new millisecond: it returns, with a nil error, the identifier packed
    from the observed timestamp and sequence 0, and leaves the generator with
    sequence 0 and lastTimestamp set to the observed (smaller) timestamp. *)
Theorem Generate_clock_regression (s : Snowflake) (now : Z) (clock : Clock) :
  timestampOf now < lastTimestamp s ->
  Generate s (now :: clock) =
  Some (compose (timestampOf now) (dataCenterID s) (machineID s) 0, None,
        {| machineID := machineID s; dataCenterID := dataCenterID s;
           sequence := 0; lastTimestamp := timestampOf now |}, clock) /\
  (forall (s1 : Snowflake) (clock1 : Clock) (o : Outcome),
      Generate s1 clock1 = Some o -> outErr o = None).
Proof.
  intros H. split.
  - apply Generate_other_milli. lia.
  - intros s1 clock1 o Ho. apply (Generate_inv s1 clock1 o Ho).
Qed.

Lemma Generate_clock_regression_witness :
  Generate {| machineID := 1; dataCenterID := 1; sequence := 3;
              lastTimestamp := 10 |} [epoch + 5]
  = Some (compose (timestampOf (epoch + 5)) 1 1 0, None,
          {| machineID := 1; dataCenterID := 1; sequence := 0;
             lastTimestamp := timestampOf (epoch + 5) |}, []).
Proof.
  apply (Generate_clock_regression
           {| machineID := 1; dataCenterID := 1; sequence := 3;
              lastTimestamp := 10 |} (epoch + 5) []).
  vm_compute. reflexivity.
Defined.

(** ** The fields of a returned identifier *)

Lemma reaches_config (s0 s : Snowflake) :
  reaches s0 s ->
  machineID s = machineID s0 /\ dataCenterID s = dataCenterID s0.
Proof.
  induction 1 as [|s clock o _ [IHm IHd] Hg].
  - split; reflexivity.
  - destruct (Generate_inv s clock o Hg) as (_ & Hm & Hdc & _).
    split; congruence.
Qed.

(** C4: on a generator constructed with [dataCenterID] and [machineID], after
    any number of earlier calls, the identifier a call returns has
    dataCenterID in bits 17-21 (shift right by 17, mask 5 bits) and machineID
    in bits 12-16 (shift right by 12, mask 5 bits). *)
Theorem Generate_field_round_trip
  (machineID0 dataCenterID0 : Z) (s0 s : Snowflake) (clock : Clock) (o : Outcome) :
  NewSnowflake machineID0 dataCenterID0 = (Some s0, None) ->
  reaches s0 s ->
  Generate s clock = Some o ->
  Z.land (Z.shiftr (outId o) 17) (Z.ones 5) = dataCenterID0 /\
  Z.land (Z.shiftr (outId o) 12) (Z.ones 5) = machineID0.
Proof.
  intros Hnew Hreach Hgen.
  apply NewSnowflake_inv in Hnew. destruct Hnew as (_ & Hm & Hdc & ->).
  apply reaches_config in Hreach. cbn in Hreach. destruct Hreach as [Hm' Hdc'].
  destruct (Generate_inv s clock o Hgen) as (_ & _ & _ & Hq & ->).
  rewrite Hm', Hdc'. split.
  - apply (dataCenterField_compose _ dataCenterID0 machineID0); assumption.
  - apply (machineField_compose _ dataCenterID0 machineID0); assumption.
Qed.

Lemma Generate_field_round_trip_witness :
  Z.land (Z.shiftr 29495297 17) (Z.ones 5) = 1 /\
  Z.land (Z.shiftr 29495297 12) (Z.ones 5) = 1.
Proof.
  apply (Generate_field_round_trip 1 1 fresh11
           {| machineID := 1; dataCenterID := 1; sequence := 0;
              lastTimestamp := 7 |}
           [epoch + 7]
           (29495297, None,
            {| machineID := 1; dataCenterID := 1; sequence := 1;
               lastTimestamp := 7 |}, [])).
  - reflexivity.
  - apply (reaches_call fresh11 fresh11 [epoch + 7]
             (29495296, None,
              {| machineID := 1; dataCenterID := 1; sequence := 0;
                 lastTimestamp := 7 |}, [])).
    + apply reaches_here.
    + reflexivity.
  - reflexivity.
Defined.

(** ** The same millisecond *)

(** C6: the wait does not do what the claim, and the comment on the loop
    ("wait for the next millisecond"), say.  With lastTimestamp = 10 and
    sequence = 4095 the increment wraps to 0; the clock reads timestamp 10
    twice and then 5, and the loop, which only tests equality, ends there: the
    call returns with timestamp 5, which is not strictly greater than the
    lastTimestamp it waited on, and carries it in the identifier. *)
Lemma Generate_wait_ends_backward :
  timestampOf (epoch + 10)
    = lastTimestamp {| machineID := 1; dataCenterID := 1; sequence := 4095;
                       lastTimestamp := 10 |} /\
  Generate {| machineID := 1; dataCenterID := 1; sequence := 4095;
              lastTimestamp := 10 |} [epoch + 10; epoch + 10; epoch + 5]
  = Some (21106688, None,
          {| machineID := 1; dataCenterID := 1; sequence := 0;
             lastTimestamp := 5 |}, []) /\
  timestampField 21106688 = 5 /\
  ~ (timestampOf (epoch + 5) > 10).
Proof. repeat split. vm_compute. discriminate. Qed.

(** The same defect from a fresh generator: one call at timestamp 5, then
    2^12 calls at timestamp 10 that use up the sequence; the next call wraps,
    waits, and ends its wait when the clock reads timestamp 5 again.  It
    returns the identifier the first call returned. *)
Example wait_reissues_identifier :
  option_map
    (fun r => map (fun i => nth i (idsOf (fst (fst r))) 0)
                  [0%nat; Z.to_nat 4097])
    (run (Z.to_nat 4098) fresh11
         ([epoch + 5] ++ repeat (epoch + 10) (Z.to_nat 4097) ++ [epoch + 5]))
  = Some [21106688; 21106688].
Proof. vm_compute. reflexivity. Qed.

(** ** Three calls in one millisecond *)

(** The reading left out below: at the epoch itself the observed timestamp
    is 0, the lastTimestamp of a generator that has not been used, and the
    first call already increments the sequence. *)
Example three_calls_at_epoch :
  timestampOf epoch = 0 /\
  NewSnowflake 1 1 = (Some fresh11, None) /\
  option_map (fun r => map sequenceField (idsOf (fst (fst r))))
             (run 3 fresh11 [epoch; epoch; epoch])
  = Some [1; 2; 3].
Proof. repeat split. Qed.

(** A reading after the epoch gives a positive timestamp. *)
Lemma timestampOf_after_epoch (now : Z) :
  epoch < now < 2 ^ 63 -> 0 < timestampOf now.
Proof.
  intros H. unfold timestampOf, sub64. unfold epoch in *.
  rewrite wrap64_small; lia.
Qed.

(** Three calls on a fresh generator for machine 1 in data center 1 while
    the clock shows one timestamp other than 0. *)
Lemma three_calls_nonzero_timestamp (now : Z) (s0 : Snowflake) :
  NewSnowflake 1 1 = (Some s0, None) ->
  timestampOf now <> 0 ->
  exists (id0 id1 id2 : Z) (s1 s2 s3 : Snowflake),
    run 3 s0 [now; now; now] = Some ([(id0, s1); (id1, s2); (id2, s3)], s3, []) /\
    timestampField id0 = timestampField id1 /\
    timestampField id1 = timestampField id2 /\
    map dataCenterField [id0; id1; id2] = [1; 1; 1] /\
    map machineField [id0; id1; id2] = [1; 1; 1] /\
    map sequenceField [id0; id1; id2] = [0; 1; 2].
Proof.
  intros Hnew Hnow.
  apply NewSnowflake_inv in Hnew. destruct Hnew as (_ & _ & _ & ->).
  exists (compose (timestampOf now) 1 1 0), (compose (timestampOf now) 1 1 1),
    (compose (timestampOf now) 1 1 2).
  do 3 eexists. split.
  - unfold run.
    rewrite Generate_other_milli by exact Hnow.
    cbn [machineID dataCenterID].
    rewrite Generate_same_milli
      by first [reflexivity | intros Hq; cbn [sequence] in Hq; cbv in Hq; discriminate].
    cbn [machineID dataCenterID sequence lastTimestamp].
    rewrite Generate_same_milli
      by first [reflexivity | intros Hq; cbn [sequence] in Hq; cbv in Hq; discriminate].
    cbn [machineID dataCenterID sequence lastTimestamp].
    reflexivity.
  - assert (H1 : 0 <= 1 <= maxDataCenterID) by (rewrite maxDataCenterID_eq; lia).
    assert (H2 : 0 <= 1 <= maxMachineID) by (rewrite maxMachineID_eq; lia).
    assert (Q0 : validSequence 0) by (unfold validSequence; rewrite maxSequence_eq; lia).
    assert (Q1 : validSequence 1) by (unfold validSequence; rewrite maxSequence_eq; lia).
    assert (Q2 : validSequence 2) by (unfold validSequence; rewrite maxSequence_eq; lia).
    cbn [map].
    rewrite !timestampField_compose, !dataCenterField_compose,
      !machineField_compose, !sequenceField_compose by assumption.
    repeat split; reflexivity.
Qed.

(** C8: on a freshly constructed generator with dataCenterID = 1 and
    machineID = 1, if the clock returns the same positive millisecond value
    (an observed timestamp now_ms - epoch greater than 0) for three
    consecutive calls, the three calls return identifiers with identical
    timestamp, data-center (1) and machine (1) fields and sequence fields
    0, 1, 2 in call order. *)
Theorem three_calls_same_millisecond (now : Z) (s0 : Snowflake) :
  NewSnowflake 1 1 = (Some s0, None) ->
  0 < timestampOf now ->
  exists (id0 id1 id2 : Z) (s1 s2 s3 : Snowflake),
    run 3 s0 [now; now; now] = Some ([(id0, s1); (id1, s2); (id2, s3)], s3, []) /\
    timestampField id0 = timestampField id1 /\
    timestampField id1 = timestampField id2 /\
    map dataCenterField [id0; id1; id2] = [1; 1; 1] /\
    map machineField [id0; id1; id2] = [1; 1; 1] /\
    map sequenceField [id0; id1; id2] = [0; 1; 2].
Proof.
  intros Hnew Hnow.
  apply (three_calls_nonzero_timestamp now s0 Hnew). lia.
Qed.

Lemma three_calls_same_millisecond_witness :
  exists (id0 id1 id2 : Z) (s1 s2 s3 : Snowflake),
    run 3 fresh11 [epoch + 7; epoch + 7; epoch + 7]
    = Some ([(id0, s1); (id1, s2); (id2, s3)], s3, []) /\
    timestampField id0 = timestampField id1 /\
    timestampField id1 = timestampField id2 /\
    map dataCenterField [id0; id1; id2] = [1; 1; 1] /\
    map machineField [id0; id1; id2] = [1; 1; 1] /\
    map sequenceField [id0; id1; id2] = [0; 1; 2].
Proof.
  apply (three_calls_same_millisecond (epoch + 7) fresh11).
  - reflexivity.
  - vm_compute. reflexivity.
Defined.

(** ** A clock that does not regress *)

(** Where a returning call stands afterwards: the timestamp it used is the
    one of the last reading it consumed. *)
Lemma Generate_cases (s : Snowflake) (clock : Clock) (o : Outcome) :
  Generate s clock = Some o ->
  exists (now : Z) (clock1 : Clock),
    clock = now :: clock1 /\
    ((timestampOf now <> lastTimestamp s /\
      lastTimestamp (outState o) = timestampOf now /\
      sequence (outState o) = 0 /\ outClock o = clock1) \/
     (timestampOf now = lastTimestamp s /\
      nextSequence (sequence s) <> 0 /\
      lastTimestamp (outState o) = lastTimestamp s /\
      sequence (outState o) = nextSequence (sequence s) /\
      outClock o = clock1) \/
     (timestampOf now = lastTimestamp s /\
      nextSequence (sequence s) = 0 /\
      exists (stalled : Clock) (now' : Z),
        clock1 = stalled ++ now' :: outClock o /\
        timestampOf now' <> lastTimestamp s /\
        lastTimestamp (outState o) = timestampOf now' /\
        sequence (outState o) = 0)).
Proof.
  destruct clock as [|now clock1]; [discriminate|].
  intros H. exists now, clock1. split; [reflexivity|].
  destruct (Z.eq_dec (timestampOf now) (lastTimestamp s)) as [Ht|Ht].
  - destruct (Z.eq_dec (nextSequence (sequence s)) 0) as [Hq|Hq].
    + right; right. rewrite Generate_wrap in H by assumption.
      destruct (waitNextMilli _ _ clock1) as [[t rest]|] eqn:Hw; [|discriminate].
      inversion H; subst o; clear H. cbn.
      apply waitNextMilli_inv in Hw.
      destruct Hw as [Hne [[Hsame _]|[_ (stalled & now' & Hc & _ & Hn)]]];
        [contradiction|].
      repeat split; try assumption.
      exists stalled, now'. subst t. repeat split; assumption.
    + right; left. rewrite Generate_same_milli in H by assumption.
      inversion H; subst o; clear H. cbn. repeat split; assumption.
  - left. rewrite Generate_other_milli in H by assumption.
    inversion H; subst o; clear H. cbn. repeat split; assumption.
Qed.

Lemma steady_cons (last now : Z) (rest : Clock) :
  steady last (now :: rest) ->
  last <= timestampOf now /\ steady (timestampOf now) rest /\ steady last rest.
Proof.
  unfold steady. cbn [map]. intros H.
  apply StronglySorted_inv in H. destruct H as [Hs Hall].
  inversion Hall as [|? ? Hle Hrest]; subst.
  split; [assumption|]. split; [assumption|].
  apply StronglySorted_inv in Hs. destruct Hs as [Hs _].
  constructor; assumption.
Qed.

Lemma steady_skip (last : Z) (stalled : Clock) (now : Z) (rest : Clock) :
  steady last (stalled ++ now :: rest) ->
  last <= timestampOf now /\ steady (timestampOf now) rest.
Proof.
  induction stalled as [|r stalled IH]; cbn [app]; intros H.
  - apply steady_cons in H. tauto.
  - apply steady_cons in H. apply IH. tauto.
Qed.


(** After a call on a steady clock the generator holds the timestamp of a
    reading it consumed, and the rest of the clock is steady from there. *)
Lemma Generate_steady (s : Snowflake) (now : Z) (clock : Clock) (o : Outcome) :
  steady (timestampOf now) clock ->
  Generate s (now :: clock) = Some o ->
  timestampOf now <= lastTimestamp (outState o) /\
  steady (lastTimestamp (outState o)) (outClock o).
Proof.
  intros Hst H. apply Generate_cases in H.
  destruct H as (now0 & clock1 & E & H). inversion E; subst now0 clock1; clear E.
  destruct H as [(_ & HL & _ & Hc)|[(Ht & _ & HL & _ & Hc)|
                 (_ & _ & stalled & now' & Hc & _ & HL & _)]].
  - rewrite HL, Hc. split; [lia|assumption].
  - rewrite HL, Hc, <- Ht. split; [lia|assumption].
  - rewrite HL. rewrite Hc in Hst. apply steady_skip in Hst. exact Hst.
Qed.

(** On a clock that does not regress the wait does end on a later
    millisecond: the defect of the loop shows only when the clock goes
    backward while the call waits. *)
Lemma wait_ends_later_on_steady_clock
      (s : Snowflake) (now : Z) (clock : Clock) (o : Outcome) :
  timestampOf now = lastTimestamp s ->
  nextSequence (sequence s) = 0 ->
  steady (lastTimestamp s) clock ->
  Generate s (now :: clock) = Some o ->
  lastTimestamp s < lastTimestamp (outState o) /\ sequence (outState o) = 0.
Proof.
  intros Ht Hq Hst H. apply Generate_cases in H.
  destruct H as (now0 & clock1 & E & H). inversion E; subst now0 clock1; clear E.
  destruct H as [(Hne & _)|[(_ & Hnz & _)|
                 (_ & _ & stalled & now' & Hc & Hne & HL & Hs)]];
    [contradiction|contradiction|].
  rewrite Hc in Hst. apply steady_skip in Hst. destruct Hst as [Hle _].
  rewrite HL. split; [lia|exact Hs].
Qed.

Lemma run_lastTimestamps (n : nat) :
  forall (s : Snowflake) (clock : Clock) trace s' rest,
    steady (lastTimestamp s) clock ->
    run n s clock = Some (trace, s', rest) ->
    StronglySorted Z.le (lastTimestamp s :: lastTimestampsOf trace).
Proof.
  induction n as [|n IH]; intros s clock trace s' rest Hst H; cbn in H.
  - inversion H; subst. repeat constructor.
  - destruct (Generate s clock) as [[[[id e] s1] clock1]|] eqn:Hg; [|discriminate].
    destruct (run n s1 clock1) as [[[trace1 s2] clock2]|] eqn:Hr; [|discriminate].
    inversion H; subst; clear H.
    destruct clock as [|now clock]; [discriminate|].
    apply steady_cons in Hst. destruct Hst as (Hle & Hst & _).
    destruct (Generate_steady s now clock _ Hst Hg) as [Hle1 Hst1].
    cbn [outState outClock fst snd] in Hle1, Hst1.
    specialize (IH s1 clock1 trace1 s' rest Hst1 Hr).
    unfold lastTimestampsOf in *. cbn [map snd].
    constructor; [exact IH|].
    apply StronglySorted_inv in IH. destruct IH as [_ Hall].
    constructor; [lia|].
    eapply Forall_impl; [|exact Hall]. cbn. intros; lia.
Qed.

Lemma Sorted_le_StronglySorted (l : list Z) :
  Sorted Z.le l -> StronglySorted Z.le l.
Proof.
  apply Sorted_StronglySorted. intros x y z. apply Z.le_trans.
Qed.

(** C3 (as stated) fails: every call succeeds, also when the clock has
    jumped back.  On a fresh generator the readings epoch + 10 and then
    epoch + 5 leave lastTimestamp at 10 after the first call and at 5 after
    the second. *)
Lemma lastTimestamp_can_decrease :
  NewSnowflake 1 1 = (Some fresh11, None) /\
  option_map (fun r => lastTimestampsOf (fst (fst r)))
             (run 2 fresh11 [epoch + 10; epoch + 5])
  = Some [10; 5] /\
  ~ (10 <= 5).
Proof. repeat split. lia. Qed.

(** C3 (amended): across every sequence of [Generate] calls on one instance
    in which the observed timestamps never regress (each reading's
    now_ms - epoch is greater than or equal to the previous reading's), the
    value of lastTimestamp after each call is greater than or equal to its
    value after every earlier call. *)
Theorem lastTimestamp_monotone
  (n : nat) (s : Snowflake) (clock : Clock)
  (trace : list (Z * Snowflake)) (s' : Snowflake) (rest : Clock) :
  Sorted Z.le (map timestampOf clock) ->
  run n s clock = Some (trace, s', rest) ->
  StronglySorted Z.le (lastTimestampsOf trace).
Proof.
  intros Hsorted H. apply Sorted_le_StronglySorted in Hsorted.
  destruct n as [|n]; cbn in H.
  - inversion H; subst. constructor.
  - destruct (Generate s clock) as [[[[id e] s1] clock1]|] eqn:Hg; [|discriminate].
    destruct (run n s1 clock1) as [[[trace1 s2] clock2]|] eqn:Hr; [|discriminate].
    inversion H; subst; clear H.
    destruct clock as [|now clock]; [discriminate|].
    destruct (Generate_steady s now clock _ Hsorted Hg) as [_ Hst1].
    exact (run_lastTimestamps n s1 clock1 trace1 s' rest Hst1 Hr).
Qed.

Lemma lastTimestamp_monotone_witness :
  StronglySorted Z.le
    (lastTimestampsOf
       [(29495296, {| machineID := 1; dataCenterID := 1; sequence := 0;
                       lastTimestamp := 7 |});
        (29495297, {| machineID := 1; dataCenterID := 1; sequence := 1;
                       lastTimestamp := 7 |});
        (37883904, {| machineID := 1; dataCenterID := 1; sequence := 0;
                       lastTimestamp := 9 |})]).
Proof.
  apply (lastTimestamp_monotone 3 fresh11 [epoch + 7; epoch + 7; epoch + 9]
           _ {| machineID := 1; dataCenterID := 1; sequence := 0;
                lastTimestamp := 9 |} []).
  - vm_compute. repeat constructor; discriminate.
  - vm_compute. reflexivity.
Defined.

(** ** Identifiers in call order *)

Lemma key_eq (s : Snowflake) :
  key s = lastTimestamp s * 4194304 + dataCenterID s * 131072
          + machineID s * 4096 + sequence s.
Proof. reflexivity. Qed.

Lemma fitsTimestamp_eq (t : Z) : fitsTimestamp t <-> 0 <= t < 4398046511104.
Proof. reflexivity. Qed.

Lemma inRange_timestampOf (now : Z) :
  inRange now -> timestampOf now = now - epoch.
Proof.
  unfold inRange, timestampOf, sub64, timestampShift, sequenceBits,
    machineBits, dataCenterBits, epoch.
  intros H. apply wrap64_small. lia.
Qed.

Section Minted.

Variables dc m : Z.
Hypothesis Hdc : 0 <= dc <= maxDataCenterID.
Hypothesis Hm : 0 <= m <= maxMachineID.

Lemma minted_uint64 (t q : Z) :
  fitsTimestamp t -> validSequence q ->
  uint64 (compose t dc m q) = t * 4194304 + dc * 131072 + m * 4096 + q.
Proof.
  intros Ht Hq. rewrite uint64_compose by assumption.
  pose proof (proj1 (fitsTimestamp_eq t) Ht) as Ht'.
  rewrite Z.mod_small by (change (2 ^ 42) with 4398046511104; lia).
  lia.
Qed.

Lemma minted_timestampField (t q : Z) :
  fitsTimestamp t -> validSequence q -> timestampField (compose t dc m q) = t.
Proof.
  intros Ht Hq. rewrite timestampField_compose by assumption.
  pose proof (proj1 (fitsTimestamp_eq t) Ht) as Ht'.
  apply Z.mod_small. change (2 ^ 42) with 4398046511104. lia.
Qed.

Lemma minted_stamp (t q : Z) :
  fitsTimestamp t -> validSequence q -> stamp (compose t dc m q) = (t, q).
Proof.
  intros Ht Hq. unfold stamp.
  rewrite minted_timestampField, sequenceField_compose by assumption.
  reflexivity.
Qed.

(** Two identifiers of one generator with the same stamp are equal. *)
Lemma minted_stamp_inj (x y : Z) :
  minted dc m x -> minted dc m y -> stamp x = stamp y -> x = y.
Proof.
  intros (t1 & q1 & Ht1 & Hq1 & ->) (t2 & q2 & Ht2 & Hq2 & ->).
  rewrite !minted_stamp by assumption.
  intros E. inversion E. reflexivity.
Qed.

Lemma minted_sequence_range (x : Z) :
  minted dc m x -> 0 <= sequenceField x < 4096.
Proof.
  intros (t & q & Ht & Hq & ->).
  rewrite sequenceField_compose by assumption.
  unfold validSequence in Hq. rewrite maxSequence_eq in Hq. lia.
Qed.

(** A larger identifier does not carry a smaller timestamp. *)
Lemma minted_timestamp_le (x y : Z) :
  minted dc m x -> minted dc m y -> uint64 x < uint64 y ->
  timestampField x <= timestampField y.
Proof.
  intros (t1 & q1 & Ht1 & Hq1 & ->) (t2 & q2 & Ht2 & Hq2 & ->).
  rewrite !minted_uint64, !minted_timestampField by assumption.
  unfold validSequence in Hq1, Hq2. rewrite maxSequence_eq in Hq1, Hq2.
  lia.
Qed.

End Minted.

Lemma well_fresh (m dc : Z) (s0 : Snowflake) :
  NewSnowflake m dc = (Some s0, None) ->
  well s0 /\ lastTimestamp s0 = 0 /\ machineID s0 = m /\ dataCenterID s0 = dc.
Proof.
  intros H. apply NewSnowflake_inv in H. destruct H as (_ & Hm & Hdc & ->).
  assert (Hq : validSequence 0) by (unfold validSequence; rewrite maxSequence_eq; lia).
  assert (Hl : fitsTimestamp 0) by (apply fitsTimestamp_eq; lia).
  unfold well, validConfig. cbn [machineID dataCenterID sequence lastTimestamp].
  tauto.
Qed.

(** One call on a well-formed generator with a steady clock whose timestamps
    fit: the laid-out fields grow, and the identifier is packed from the
    fields the call leaves. *)
Lemma Generate_well (s : Snowflake) (clock : Clock) (o : Outcome) :
  well s ->
  steady (lastTimestamp s) clock ->
  Forall (fun r => fitsTimestamp (timestampOf r)) clock ->
  Generate s clock = Some o ->
  well (outState o) /\
  steady (lastTimestamp (outState o)) (outClock o) /\
  Forall (fun r => fitsTimestamp (timestampOf r)) (outClock o) /\
  machineID (outState o) = machineID s /\
  dataCenterID (outState o) = dataCenterID s /\
  key s < key (outState o) /\
  outId o = compose (lastTimestamp (outState o)) (dataCenterID s) (machineID s)
                    (sequence (outState o)).
Proof.
  intros (Hcfg & Hq & Hl) Hst Hfit H.
  destruct (Generate_inv s clock o H) as (_ & Em & Edc & Hq' & Eid).
  apply Generate_cases in H. destruct H as (now & clock1 & -> & H).
  apply steady_cons in Hst. destruct Hst as (Hle & Hst1 & Hst0).
  inversion Hfit as [|? ? Hnow Hfit1]; subst.
  assert (Hcfg' : validConfig (outState o))
    by (unfold validConfig in *; rewrite Em, Edc; exact Hcfg).
  pose proof Hq as Hq0. pose proof Hq' as Hq0'.
  unfold validSequence in Hq0, Hq0'. rewrite maxSequence_eq in Hq0, Hq0'.
  enough (Hmain : fitsTimestamp (lastTimestamp (outState o)) /\
                  steady (lastTimestamp (outState o)) (outClock o) /\
                  Forall (fun r => fitsTimestamp (timestampOf r)) (outClock o) /\
                  key s < key (outState o))
    by (unfold well; tauto).
  rewrite !key_eq, Em, Edc.
  destruct H as [(Hne & HL & Hs & Hc)|[(Ht & Hnz & HL & Hs & Hc)|
                 (Ht & Hz & stalled & now' & Hc & Hne & HL & Hs)]].
  - rewrite HL, Hc. repeat (split; [assumption|]). lia.
  - rewrite HL, Hc. repeat (split; [assumption|]).
    rewrite Hs. rewrite nextSequence_succ; [lia|].
    rewrite maxSequence_eq.
    destruct (Z.eq_dec (sequence s) 4095) as [E|E]; [|lia].
    exfalso. apply Hnz. rewrite E. reflexivity.
  - rewrite HL. rewrite Hc in Hst0, Hfit1.
    apply steady_skip in Hst0. destruct Hst0 as [Hle' Hst'].
    apply Forall_app in Hfit1. destruct Hfit1 as [_ Hfit2].
    inversion Hfit2 as [|? ? Hnow' Hfit3]; subst.
    repeat (split; [assumption|]). lia.
Qed.

Lemma StronglySorted_map_impl {A : Type} (R R' : Z -> Z -> Prop)
      (f g : A -> Z) (l : list A) :
  (forall x y, In x l -> In y l -> R (f x) (f y) -> R' (g x) (g y)) ->
  StronglySorted R (map f l) -> StronglySorted R' (map g l).
Proof.
  induction l as [|a l IH]; cbn [map]; intros Himp H.
  - constructor.
  - apply StronglySorted_inv in H. destruct H as [Hs Hall].
    constructor.
    + apply IH; [|assumption].
      intros x y Hx Hy. apply Himp; right; assumption.
    + rewrite Forall_forall in *. intros z Hz.
      apply in_map_iff in Hz. destruct Hz as (x & <- & Hx).
      apply Himp; [left; reflexivity|right; assumption|].
      apply Hall, in_map, Hx.
Qed.

Lemma StronglySorted_lt_NoDup (l : list Z) : StronglySorted Z.lt l -> NoDup l.
Proof.
  induction 1 as [|a l _ IH Hall]; constructor; [|assumption].
  intros Hin. rewrite Forall_forall in Hall. specialize (Hall a Hin). lia.
Qed.

Lemma StronglySorted_le_snoc (l : list Z) (z : Z) :
  StronglySorted Z.le (l ++ [z]) -> Forall (fun x => x <= z) l.
Proof.
  induction l as [|a l IH]; cbn [app]; intros H.
  - constructor.
  - apply StronglySorted_inv in H. destruct H as [Hs Hall].
    constructor; [|apply IH, Hs].
    rewrite Forall_forall in Hall. apply Hall, in_or_app. right. left. reflexivity.
Qed.

(** A run on a well-formed generator with a steady clock whose timestamps
    fit: the identifiers are packed from fields that fit and, read as
    unsigned 64-bit integers, go strictly up from the fields the run started
    with. *)
Lemma run_minted (n : nat) :
  forall (s : Snowflake) (clock : Clock) trace s' rest,
    well s ->
    steady (lastTimestamp s) clock ->
    Forall (fun r => fitsTimestamp (timestampOf r)) clock ->
    run n s clock = Some (trace, s', rest) ->
    Forall (minted (dataCenterID s) (machineID s)) (idsOf trace) /\
    StronglySorted Z.lt (key s :: map uint64 (idsOf trace)) /\
    List.length trace = n.
Proof.
  induction n as [|n IH]; intros s clock trace s' rest Hw Hst Hfit H; cbn in H.
  - inversion H; subst. cbn. repeat constructor.
  - destruct (Generate s clock) as [[[[id e] s1] clock1]|] eqn:Hg; [|discriminate].
    destruct (run n s1 clock1) as [[[trace1 s2] clock2]|] eqn:Hr; [|discriminate].
    inversion H; subst; clear H.
    destruct (Generate_well s clock _ Hw Hst Hfit Hg)
      as (Hw1 & Hst1 & Hfit1 & Em & Edc & Hkey & Eid).
    cbn [outState outClock outId fst snd] in *.
    destruct (IH s1 clock1 trace1 s' rest Hw1 Hst1 Hfit1 Hr) as (Hmint & Hsort & Hlen).
    rewrite Em, Edc in Hmint.
    destruct Hw as ([Hm Hdc] & _ & _). destruct Hw1 as (_ & Hq1 & Hl1).
    assert (Hid : uint64 id = key s1).
    { rewrite Eid, key_eq, Em, Edc. apply minted_uint64; assumption. }
    cbn [idsOf map fst List.length]. split; [|split].
    + constructor; [|exact Hmint].
      exists (lastTimestamp s1), (sequence s1).
      split; [assumption|]. split; assumption.
    + rewrite Hid. constructor; [exact Hsort|].
      apply StronglySorted_inv in Hsort. destruct Hsort as [_ Hall].
      constructor; [assumption|].
      eapply Forall_impl; [|exact Hall]. cbn. intros; lia.
    + rewrite Hlen. reflexivity.
Qed.

(** The hypotheses of [run_minted] on a fresh generator, from the readings. *)
Lemma fresh_steady (clock : Clock) :
  Sorted Z.le clock -> Forall inRange clock ->
  steady 0 clock /\ Forall (fun r => fitsTimestamp (timestampOf r)) clock.
Proof.
  intros Hs Hr. apply Sorted_le_StronglySorted in Hs.
  assert (Hfit : Forall (fun r => fitsTimestamp (timestampOf r)) clock).
  { eapply Forall_impl; [|exact Hr]. intros r Hin.
    rewrite inRange_timestampOf by assumption.
    apply fitsTimestamp_eq. unfold inRange in Hin.
    change (2 ^ (64 - timestampShift)) with 4398046511104 in Hin. lia. }
  split; [|exact Hfit].
  unfold steady. constructor.
  - rewrite <- (map_id clock) in Hs.
    apply (StronglySorted_map_impl Z.le Z.le (fun r => r) timestampOf clock);
      [|exact Hs].
    rewrite Forall_forall in Hr. intros x y Hx Hy Hxy.
    rewrite !inRange_timestampOf by (apply Hr; assumption). lia.
  - rewrite Forall_forall in *. intros t Ht.
    apply in_map_iff in Ht. destruct Ht as (r & <- & Hin).
    pose proof (proj1 (fitsTimestamp_eq _) (Hfit _ Hin)). lia.
Qed.

Lemma fresh_run (m dc : Z) (s0 : Snowflake) (n : nat) (clock : Clock)
      trace s' rest :
  NewSnowflake m dc = (Some s0, None) ->
  Sorted Z.le clock -> Forall inRange clock ->
  run n s0 clock = Some (trace, s', rest) ->
  0 <= dc <= maxDataCenterID /\ 0 <= m <= maxMachineID /\
  Forall (minted dc m) (idsOf trace) /\
  StronglySorted Z.lt (map uint64 (idsOf trace)) /\
  List.length (idsOf trace) = n.
Proof.
  intros Hnew Hs Hr Hrun.
  destruct (well_fresh m dc s0 Hnew) as (Hw & Hl & Em & Edc).
  destruct (fresh_steady clock Hs Hr) as [Hst Hfit].
  rewrite <- Hl in Hst.
  destruct (run_minted n s0 clock trace s' rest Hw Hst Hfit Hrun)
    as (Hmint & Hsort & Hlen).
  rewrite Em, Edc in Hmint.
  apply StronglySorted_inv in Hsort. destruct Hsort as [Hsort _].
  destruct Hw as ([Hm Hdc] & _). rewrite Em in Hm. rewrite Edc in Hdc.
  unfold idsOf at 3. rewrite length_map. tauto.
Qed.

(** C2 (as stated) fails once the timestamp leaves the 42 bits above the
    shift: the readings epoch + 2^42 - 1 and epoch + 2^42 do not regress, but
    the shift by 22 drops the top bit of the second timestamp, and the second
    identifier and its timestamp field are smaller than the first. *)
Lemma ids_wrap_after_42_bits :
  NewSnowflake 1 1 = (Some fresh11, None) /\
  epoch + (2 ^ 42 - 1) <= epoch + 2 ^ 42 /\
  option_map (fun r => map uint64 (idsOf (fst (fst r))))
             (run 2 fresh11 [epoch + (2 ^ 42 - 1); epoch + 2 ^ 42])
  = Some [18446744073705492480; 135168] /\
  option_map (fun r => map timestampField (idsOf (fst (fst r))))
             (run 2 fresh11 [epoch + (2 ^ 42 - 1); epoch + 2 ^ 42])
  = Some [4398046511103; 0] /\
  ~ (18446744073705492480 < 135168).
Proof. repeat split; [vm_compute; discriminate | lia]. Qed.

(** C2 (amended): for every sequence of calls on a freshly constructed
    generator in which every clock reading is greater than or equal to the
    previous one and lies in [epoch, epoch + 2^42) (so that the observed
    timestamp fits the 42 bits above the shift), the identifiers returned are
    strictly increasing as unsigned 64-bit integers and their timestamp fields
    are non-decreasing. *)
Theorem ids_strictly_increasing
  (m dc : Z) (s0 : Snowflake) (n : nat) (clock : Clock)
  (trace : list (Z * Snowflake)) (s' : Snowflake) (rest : Clock) :
  NewSnowflake m dc = (Some s0, None) ->
  Sorted Z.le clock ->
  Forall (fun now => epoch <= now < epoch + 2 ^ 42) clock ->
  run n s0 clock = Some (trace, s', rest) ->
  StronglySorted Z.lt (map uint64 (idsOf trace)) /\
  StronglySorted Z.le (map timestampField (idsOf trace)).
Proof.
  intros Hnew Hs Hr Hrun.
  destruct (fresh_run m dc s0 n clock trace s' rest Hnew Hs Hr Hrun)
    as (Hdc & Hm & Hmint & Hsort & _).
  split; [exact Hsort|].
  apply (StronglySorted_map_impl Z.lt Z.le uint64 timestampField); [|exact Hsort].
  rewrite Forall_forall in Hmint. intros x y Hx Hy.
  apply (minted_timestamp_le dc m Hdc Hm); apply Hmint; assumption.
Qed.

Lemma ids_strictly_increasing_witness :
  StronglySorted Z.lt (map uint64 [29495296; 29495297; 37883904]) /\
  StronglySorted Z.le (map timestampField [29495296; 29495297; 37883904]).
Proof.
  apply (ids_strictly_increasing 1 1 fresh11 3 [epoch + 7; epoch + 7; epoch + 9]
           [(29495296, {| machineID := 1; dataCenterID := 1; sequence := 0;
                          lastTimestamp := 7 |});
            (29495297, {| machineID := 1; dataCenterID := 1; sequence := 1;
                          lastTimestamp := 7 |});
            (37883904, {| machineID := 1; dataCenterID := 1; sequence := 0;
                          lastTimestamp := 9 |})]
           {| machineID := 1; dataCenterID := 1; sequence := 0;
              lastTimestamp := 9 |} []).
  - reflexivity.
  - repeat constructor; vm_compute; discriminate.
  - repeat constructor; vm_compute; discriminate.
  - vm_compute. reflexivity.
Defined.

(** ** The sequence bound *)

Section SequenceBound.

Variables dc m : Z.
Hypothesis Hdc : 0 <= dc <= maxDataCenterID.
Hypothesis Hm : 0 <= m <= maxMachineID.

Variable ids : list Z.
Hypothesis Hmint : Forall (minted dc m) ids.
Hypothesis Hsort : StronglySorted Z.lt (map uint64 ids).

Lemma ids_NoDup : NoDup ids.
Proof. apply (NoDup_map_inv uint64), StronglySorted_lt_NoDup, Hsort. Qed.

Lemma stamps_NoDup : NoDup (map stamp ids).
Proof.
  apply NoDup_map_NoDup_ForallPairs; [|exact ids_NoDup].
  rewrite Forall_forall in Hmint. intros x y Hx Hy.
  apply (minted_stamp_inj dc m Hdc Hm); apply Hmint; assumption.
Qed.

Lemma timestamps_sorted : StronglySorted Z.le (map timestampField ids).
Proof.
  apply (StronglySorted_map_impl Z.lt Z.le uint64 timestampField);
    [|exact Hsort].
  rewrite Forall_forall in Hmint. intros x y Hx Hy.
  apply (minted_timestamp_le dc m Hdc Hm); apply Hmint; assumption.
Qed.

(** The identifiers of one timestamp have distinct sequences below 2^12. *)
Lemma countTimestamp_le (t : Z) :
  (countTimestamp t ids <= Z.to_nat (2 ^ sequenceBits))%nat.
Proof.
  unfold countTimestamp.
  set (same := filter (fun id => timestampField id =? t) ids).
  set (slot := fun id => Z.to_nat (sequenceField id)).
  rewrite <- (length_map slot same).
  rewrite <- (length_seq (Z.to_nat (2 ^ sequenceBits)) 0).
  rewrite Forall_forall in Hmint.
  assert (Hsame : forall x, In x same -> In x ids /\ timestampField x = t).
  { intros x Hx. apply filter_In in Hx. destruct Hx as [Hin Hx].
    split; [assumption|]. apply Z.eqb_eq, Hx. }
  apply NoDup_incl_length.
  - apply NoDup_map_NoDup_ForallPairs; [|apply NoDup_filter, ids_NoDup].
    intros x y Hx Hy E.
    destruct (Hsame x Hx) as [Hix Htx]. destruct (Hsame y Hy) as [Hiy Hty].
    pose proof (minted_sequence_range dc m Hdc Hm x (Hmint x Hix)) as Rx.
    pose proof (minted_sequence_range dc m Hdc Hm y (Hmint y Hiy)) as Ry.
    apply (minted_stamp_inj dc m Hdc Hm); [apply Hmint, Hix|apply Hmint, Hiy|].
    unfold stamp. rewrite Htx, Hty. f_equal.
    apply Z2Nat.inj; [lia|lia|exact E].
  - intros k Hk. apply in_map_iff in Hk. destruct Hk as (x & <- & Hx).
    destruct (Hsame x Hx) as [Hix _].
    pose proof (minted_sequence_range dc m Hdc Hm x (Hmint x Hix)) as Rx.
    apply in_seq. split; [apply Nat.le_0_l|].
    cbn [Nat.add]. unfold slot.
    apply Z2Nat.inj_lt; [lia|discriminate|].
    change (2 ^ sequenceBits) with 4096. lia.
Qed.

(** After 2^12 identifiers the next one has moved to a later timestamp. *)
Lemma timestamp_advances (first final : Z) (mid : list Z) :
  ids = first :: mid ++ [final] ->
  List.length mid = (Z.to_nat (2 ^ sequenceBits) - 1)%nat ->
  timestampField first < timestampField final.
Proof.
  intros Eids Hlen.
  destruct (Z_lt_le_dec (timestampField first) (timestampField final))
    as [Hlt|Hge]; [exact Hlt|exfalso].
  pose proof timestamps_sorted as Hts.
  rewrite Eids in Hts. cbn [map] in Hts. rewrite map_app in Hts.
  cbn [map] in Hts.
  apply StronglySorted_inv in Hts. destruct Hts as [Hs Hfirst].
  apply StronglySorted_le_snoc in Hs.
  rewrite Forall_forall in Hfirst, Hs.
  assert (Hfinal : timestampField first <= timestampField final).
  { apply Hfirst, in_or_app. right. left. reflexivity. }
  assert (Hall : forall x, In x ids -> timestampField x = timestampField first).
  { intros x Hx. rewrite Eids in Hx.
    destruct Hx as [<-|Hx]; [reflexivity|].
    apply in_app_or in Hx. destruct Hx as [Hx|[<-|[]]]; [|lia].
    pose proof (Hfirst (timestampField x)
                  (in_or_app _ _ _ (or_introl (in_map _ _ _ Hx)))).
    pose proof (Hs (timestampField x) (in_map _ _ _ Hx)). lia. }
  pose proof (countTimestamp_le (timestampField first)) as Hcount.
  unfold countTimestamp in Hcount.
  rewrite forallb_filter_id in Hcount.
  - rewrite Eids in Hcount. cbn [List.length] in Hcount.
    rewrite length_app, Hlen in Hcount. cbn [List.length] in Hcount.
    assert (HN : (1 <= Z.to_nat (2 ^ sequenceBits))%nat)
      by (apply (Z2Nat.inj_le 1); [lia|discriminate|discriminate]).
    lia.
  - apply forallb_forall. intros x Hx. apply Z.eqb_eq, Hall, Hx.
Qed.

End SequenceBound.

(** C7 (as stated) fails once the timestamp leaves the 42 bits above the
    shift: the readings epoch + 1 and epoch + 1 + 2^42 do not regress, but
    both calls return the same identifier, with timestamp field 1 and
    sequence field 0. *)
Lemma stamp_repeats_after_42_bits :
  NewSnowflake 1 1 = (Some fresh11, None) /\
  epoch + 1 <= epoch + 1 + 2 ^ 42 /\
  option_map (fun r => map stamp (idsOf (fst (fst r))))
             (run 2 fresh11 [epoch + 1; epoch + 1 + 2 ^ 42])
  = Some [(1, 0); (1, 0)] /\
  ~ NoDup [(1, 0); (1, 0)].
Proof.
  repeat split; [vm_compute; discriminate|].
  intros H. inversion H as [|? ? Hin _]. apply Hin. left. reflexivity.
Qed.

(** C7 (amended): for every run of calls on a freshly constructed generator
    in which every clock reading is greater than or equal to the previous one
    and lies in [epoch, epoch + 2^42), at most 2^12 of the identifiers
    returned carry any one timestamp value, no two of them carry the same
    (timestamp, sequence) pair, and an identifier returned after 2^12 others
    (the (2^12 + 1)-th call) carries a strictly larger timestamp field than
    the first. *)
Theorem sequence_bound
  (m dc : Z) (s0 : Snowflake) (n : nat) (clock : Clock)
  (trace : list (Z * Snowflake)) (s' : Snowflake) (rest : Clock) :
  NewSnowflake m dc = (Some s0, None) ->
  Sorted Z.le clock ->
  Forall (fun now => epoch <= now < epoch + 2 ^ 42) clock ->
  run n s0 clock = Some (trace, s', rest) ->
  (forall t : Z,
      (countTimestamp t (idsOf trace) <= Z.to_nat (2 ^ sequenceBits))%nat) /\
  NoDup (map stamp (idsOf trace)) /\
  (forall (first final : Z) (mid : list Z),
      idsOf trace = first :: mid ++ [final] ->
      List.length mid = (Z.to_nat (2 ^ sequenceBits) - 1)%nat ->
      timestampField first < timestampField final).
Proof.
  intros Hnew Hs Hr Hrun.
  destruct (fresh_run m dc s0 n clock trace s' rest Hnew Hs Hr Hrun)
    as (Hdc & Hm & Hmint & Hsort & _).
  split; [|split].
  - apply (countTimestamp_le dc m Hdc Hm); assumption.
  - apply (stamps_NoDup dc m Hdc Hm); assumption.
  - apply (timestamp_advances dc m Hdc Hm); assumption.
Qed.

Lemma sequence_bound_witness :
  NoDup (map stamp [29495296; 29495297; 37883904]).
Proof.
  apply (sequence_bound 1 1 fresh11 3 [epoch + 7; epoch + 7; epoch + 9]
           [(29495296, {| machineID := 1; dataCenterID := 1; sequence := 0;
                          lastTimestamp := 7 |});
            (29495297, {| machineID := 1; dataCenterID := 1; sequence := 1;
                          lastTimestamp := 7 |});
            (37883904, {| machineID := 1; dataCenterID := 1; sequence := 0;
                          lastTimestamp := 9 |})]
           {| machineID := 1; dataCenterID := 1; sequence := 0;
              lastTimestamp := 9 |} []).
  - reflexivity.
  - repeat constructor; vm_compute; discriminate.
  - repeat constructor; vm_compute; discriminate.
  - vm_compute. reflexivity.
Defined.

(** The scenario of the sequence bound, run: 2^12 + 1 calls while the clock
    reads the millisecond after the epoch 2^12 + 1 times and then the next
    one.  The first 2^12 identifiers carry timestamp 1 and sequences 0 to
    4095; the last call wraps the sequence, waits and carries timestamp 2. *)
Example sequence_exhaustion :
  option_map
    (fun r => map (fun i => stamp (nth i (idsOf (fst (fst r))) 0))
                  [0%nat; Z.to_nat 4095; Z.to_nat 4096])
    (run (Z.to_nat 4097) fresh11
         (repeat (epoch + 1) (Z.to_nat 4097) ++ [epoch + 2]))
  = Some [(1, 0); (1, 4095); (2, 0)].
Proof. vm_compute. reflexivity. Qed.

(** With a clock that stays on that millisecond the last call never gets a
    reading to return on. *)
Example sequence_exhaustion_stalled :
  run (Z.to_nat 4097) fresh11 (repeat (epoch + 1) (Z.to_nat 5000)) = None.
Proof. vm_compute. reflexivity. Qed.

(** ** Further properties of the constructor *)

(** X1: the machine ID is checked first: an out-of-range machine ID gives the
    machine-ID error whatever the data-center ID is, and the data-center error
    is returned only for an in-range machine ID; both messages carry the
    maximum 31. *)
Theorem NewSnowflake_error_message (m dc : Z) :
  ((m < 0 \/ 31 < m) ->
   NewSnowflake m dc =
   (None, Some (Errorf "machine ID must be between 0 and %d" 31))) /\
  (0 <= m <= 31 -> (dc < 0 \/ 31 < dc) ->
   NewSnowflake m dc =
   (None, Some (Errorf "data center ID must be between 0 and %d" 31))).
Proof.
  unfold NewSnowflake. rewrite maxMachineID_eq, maxDataCenterID_eq. split.
  - intros H.
    destruct (Z.ltb_spec m 0); [reflexivity|].
    destruct (Z.gtb_spec m 31); [reflexivity|]. lia.
  - intros Hm H.
    destruct (Z.ltb_spec m 0); [lia|].
    destruct (Z.gtb_spec m 31); [lia|]. cbn [orb].
    destruct (Z.ltb_spec dc 0); [reflexivity|].
    destruct (Z.gtb_spec dc 31); [reflexivity|]. lia.
Qed.

Lemma NewSnowflake_error_message_witness :
  NewSnowflake 40 (-3) =
  (None, Some (Errorf "machine ID must be between 0 and %d" 31)) /\
  NewSnowflake 4 32 =
  (None, Some (Errorf "data center ID must be between 0 and %d" 31)).
Proof.
  split.
  - apply (proj1 (NewSnowflake_error_message 40 (-3))). right. reflexivity.
  - apply (proj2 (NewSnowflake_error_message 4 32)).
    + split; discriminate.
    + right. reflexivity.
Defined.

(** ** Further properties of one call *)

(** X2: every generator reached from a successful construction still has the
    machine and data-center IDs it was constructed with, both within
    [0, 31], and a sequence within [0, 4095]. *)
Theorem reaches_invariant (m dc : Z) (s0 s : Snowflake) :
  NewSnowflake m dc = (Some s0, None) ->
  reaches s0 s ->
  machineID s = m /\ dataCenterID s = dc /\
  0 <= m <= 31 /\ 0 <= dc <= 31 /\ 0 <= sequence s <= 4095.
Proof.
  intros Hnew Hreach.
  apply NewSnowflake_inv in Hnew. destruct Hnew as (_ & Hm & Hdc & ->).
  rewrite maxMachineID_eq in Hm. rewrite maxDataCenterID_eq in Hdc.
  destruct (reaches_config _ _ Hreach) as [Em Edc]. cbn in Em, Edc.
  repeat (split; [assumption|]).
  destruct Hreach as [|s clock o _ Hg].
  - cbn. lia.
  - destruct (Generate_inv s clock o Hg) as (_ & _ & _ & Hq & _).
    unfold validSequence in Hq. rewrite maxSequence_eq in Hq. exact Hq.
Qed.

Lemma reaches_invariant_witness :
  machineID {| machineID := 1; dataCenterID := 1; sequence := 0;
               lastTimestamp := 5 |} = 1 /\
  dataCenterID {| machineID := 1; dataCenterID := 1; sequence := 0;
                  lastTimestamp := 5 |} = 1 /\
  0 <= 1 <= 31 /\ 0 <= 1 <= 31 /\
  0 <= sequence {| machineID := 1; dataCenterID := 1; sequence := 0;
                   lastTimestamp := 5 |} <= 4095.
Proof.
  apply (reaches_invariant 1 1 fresh11).
  - reflexivity.
  - apply (reaches_call fresh11 fresh11 [epoch + 5]
             (21106688, None,
              {| machineID := 1; dataCenterID := 1; sequence := 0;
                 lastTimestamp := 5 |}, [])).
    + apply reaches_here.
    + reflexivity.
Defined.

(** X3: the sequence a call leaves is 0 exactly when the call changed
    lastTimestamp: a call that stays in the same millisecond leaves a
    non-zero sequence, and every other call resets it. *)
Theorem sequence_zero_iff (s : Snowflake) (clock : Clock) (o : Outcome) :
  Generate s clock = Some o ->
  (sequence (outState o) = 0 <->
   lastTimestamp (outState o) <> lastTimestamp s).
Proof.
  intros H. apply Generate_cases in H. destruct H as (now & clock1 & _ & H).
  destruct H as [(Hne & HL & Hs & _)|[(Ht & Hnz & HL & Hs & _)|
                 (_ & _ & stalled & now' & _ & Hne & HL & Hs)]].
  - rewrite HL, Hs. tauto.
  - rewrite HL, Hs. tauto.
  - rewrite HL, Hs. tauto.
Qed.

Lemma sequence_zero_iff_witness :
  sequence {| machineID := 1; dataCenterID := 1; sequence := 8;
              lastTimestamp := 10 |} = 0 <->
  lastTimestamp {| machineID := 1; dataCenterID := 1; sequence := 8;
                   lastTimestamp := 10 |} <> 10.
Proof.
  apply (sequence_zero_iff
           {| machineID := 1; dataCenterID := 1; sequence := 7;
              lastTimestamp := 10 |} [epoch + 10]
           (compose 10 1 1 8, None,
            {| machineID := 1; dataCenterID := 1; sequence := 8;
               lastTimestamp := 10 |}, [])).
  reflexivity.
Defined.

(** The fields of the identifiers of a generator with a valid configuration. *)
Lemma valid_fields (s : Snowflake) (clock : Clock) (o : Outcome) :
  validConfig s ->
  Generate s clock = Some o ->
  dataCenterField (outId o) = dataCenterID s /\
  machineField (outId o) = machineID s /\
  sequenceField (outId o) = sequence (outState o) /\
  timestampField (outId o) = lastTimestamp (outState o) mod 2 ^ 42 /\
  uint64 (outId o) =
    (lastTimestamp (outState o) mod 2 ^ 42) * 2 ^ 22
    + dataCenterID s * 2 ^ 17 + machineID s * 2 ^ 12 + sequence (outState o).
Proof.
  intros [Hm Hdc] H.
  destruct (Generate_inv s clock o H) as (_ & _ & _ & Hq & ->).
  rewrite dataCenterField_compose, machineField_compose, sequenceField_compose,
    timestampField_compose, uint64_compose by assumption.
  repeat split; reflexivity.
Qed.

Lemma reaches_validConfig (m dc : Z) (s0 s : Snowflake) :
  NewSnowflake m dc = (Some s0, None) ->
  reaches s0 s ->
  validConfig s /\ machineID s = m /\ dataCenterID s = dc.
Proof.
  intros Hnew Hreach.
  apply NewSnowflake_inv in Hnew. destruct Hnew as (_ & Hm & Hdc & ->).
  destruct (reaches_config _ _ Hreach) as [Em Edc]. cbn in Em, Edc.
  unfold validConfig. rewrite Em, Edc. tauto.
Qed.

(** X4: every identifier returned by a constructed generator carries, besides
    the two IDs, the sequence the call leaves in its low 12 bits and the
    lastTimestamp the call leaves, modulo 2^42, in the bits from 22 up: read
    as an unsigned 64-bit integer it is the sum of the four shifted fields. *)
Theorem Generate_decode
  (m dc : Z) (s0 s : Snowflake) (clock : Clock) (o : Outcome) :
  NewSnowflake m dc = (Some s0, None) ->
  reaches s0 s ->
  Generate s clock = Some o ->
  sequenceField (outId o) = sequence (outState o) /\
  timestampField (outId o) = lastTimestamp (outState o) mod 2 ^ 42 /\
  uint64 (outId o) =
    (lastTimestamp (outState o) mod 2 ^ 42) * 2 ^ 22
    + dc * 2 ^ 17 + m * 2 ^ 12 + sequence (outState o).
Proof.
  intros Hnew Hreach H.
  destruct (reaches_validConfig m dc s0 s Hnew Hreach) as (Hv & Em & Edc).
  destruct (valid_fields s clock o Hv H) as (_ & _ & Hq & Ht & Hu).
  rewrite Em, Edc in Hu. tauto.
Qed.

Lemma Generate_decode_witness :
  sequenceField 29495297 = 1 /\
  timestampField 29495297 = 7 mod 2 ^ 42 /\
  uint64 29495297 = (7 mod 2 ^ 42) * 2 ^ 22 + 1 * 2 ^ 17 + 1 * 2 ^ 12 + 1.
Proof.
  apply (Generate_decode 1 1 fresh11
           {| machineID := 1; dataCenterID := 1; sequence := 0;
              lastTimestamp := 7 |}
           [epoch + 7]
           (29495297, None,
            {| machineID := 1; dataCenterID := 1; sequence := 1;
               lastTimestamp := 7 |}, [])).
  - reflexivity.
  - apply (reaches_call fresh11 fresh11 [epoch + 7]
             (29495296, None,
              {| machineID := 1; dataCenterID := 1; sequence := 0;
                 lastTimestamp := 7 |}, [])).
    + apply reaches_here.
    + reflexivity.
  - reflexivity.
Defined.

(** X5: two generators constructed with different (machineID, dataCenterID)
    pairs never return the same identifier, whatever calls came before and
    whatever their clocks read. *)
Theorem distinct_generators_distinct_ids
  (m1 dc1 m2 dc2 : Z) (a0 a b0 b : Snowflake)
  (clockA clockB : Clock) (oa ob : Outcome) :
  NewSnowflake m1 dc1 = (Some a0, None) ->
  NewSnowflake m2 dc2 = (Some b0, None) ->
  (m1, dc1) <> (m2, dc2) ->
  reaches a0 a -> reaches b0 b ->
  Generate a clockA = Some oa ->
  Generate b clockB = Some ob ->
  outId oa <> outId ob.
Proof.
  intros HnewA HnewB Hne HrA HrB HgA HgB E.
  destruct (reaches_validConfig m1 dc1 a0 a HnewA HrA) as (HvA & EmA & EdcA).
  destruct (reaches_validConfig m2 dc2 b0 b HnewB HrB) as (HvB & EmB & EdcB).
  destruct (valid_fields a clockA oa HvA HgA) as (HdA & HmA & _).
  destruct (valid_fields b clockB ob HvB HgB) as (HdB & HmB & _).
  apply Hne. rewrite E in HdA, HmA. f_equal; congruence.
Qed.

Lemma distinct_generators_distinct_ids_witness :
  outId (29495296, None,
         {| machineID := 1; dataCenterID := 1; sequence := 0;
            lastTimestamp := 7 |}, [])
  <> outId (29499392, None,
            {| machineID := 2; dataCenterID := 1; sequence := 0;
               lastTimestamp := 7 |}, []).
Proof.
  apply (distinct_generators_distinct_ids 1 1 2 1
           fresh11 fresh11
           {| machineID := 2; dataCenterID := 1; sequence := 0;
              lastTimestamp := 0 |}
           {| machineID := 2; dataCenterID := 1; sequence := 0;
              lastTimestamp := 0 |}
           [epoch + 7] [epoch + 7]).
  - reflexivity.
  - reflexivity.
  - discriminate.
  - apply reaches_here.
  - apply reaches_here.
  - reflexivity.
  - reflexivity.
Defined.

(** X6: two calls in a row that end on the same lastTimestamp return consecutive
    integers: within one millisecond the identifier goes up by exactly 1. *)
Theorem same_millisecond_ids_consecutive
  (s : Snowflake) (clock : Clock) (o1 o2 : Outcome) :
  validConfig s ->
  Generate s clock = Some o1 ->
  Generate (outState o1) (outClock o1) = Some o2 ->
  lastTimestamp (outState o2) = lastTimestamp (outState o1) ->
  outId o2 = outId o1 + 1.
Proof.
  intros Hv H1 H2 HL.
  destruct (Generate_inv s clock o1 H1) as (_ & Em & Edc & Hq1 & E1).
  destruct (Generate_inv _ _ o2 H2) as (_ & _ & _ & Hq2 & E2).
  rewrite Em, Edc in E2.
  assert (Hseq : sequence (outState o2) = sequence (outState o1) + 1).
  { apply Generate_cases in H2. destruct H2 as (now & clock1 & _ & H2).
    destruct H2 as [(Hne & HL' & _)|[(_ & Hnz & _ & Hs & _)|
                    (_ & _ & stalled & now' & _ & Hne & HL' & _)]];
      [congruence| |congruence].
    rewrite Hs. unfold validSequence in Hq1. rewrite maxSequence_eq in Hq1.
    destruct (Z.eq_dec (sequence (outState o1)) 4095) as [E|E].
    - exfalso. apply Hnz. rewrite E. reflexivity.
    - apply nextSequence_succ. rewrite maxSequence_eq. lia. }
  destruct Hv as [Hm Hdc].
  rewrite E1, E2, HL, !compose_sum by assumption. lia.
Qed.

Lemma same_millisecond_ids_consecutive_witness :
  outId (29495297, None,
         {| machineID := 1; dataCenterID := 1; sequence := 1;
            lastTimestamp := 7 |}, [])
  = outId (29495296, None,
           {| machineID := 1; dataCenterID := 1; sequence := 0;
              lastTimestamp := 7 |}, [epoch + 7]) + 1.
Proof.
  apply (same_millisecond_ids_consecutive fresh11 [epoch + 7; epoch + 7]).
  - split; split; discriminate.
  - reflexivity.
  - reflexivity.
  - reflexivity.
Defined.

(** X7: the sign of an identifier: with a valid configuration the identifier is
    a non-negative int64 as long as the lastTimestamp it is built from is in
    [0, 2^41), and a negative one from 2^41 up to 2^42. *)
Theorem Generate_id_sign (s : Snowflake) (clock : Clock) (o : Outcome) :
  validConfig s ->
  Generate s clock = Some o ->
  (0 <= lastTimestamp (outState o) < 2 ^ 41 -> 0 <= outId o < 2 ^ 63) /\
  (2 ^ 41 <= lastTimestamp (outState o) < 2 ^ 42 -> - 2 ^ 63 <= outId o < 0).
Proof.
  intros [Hm Hdc] H.
  destruct (Generate_inv s clock o H) as (_ & _ & _ & Hq & ->).
  rewrite compose_sum by assumption.
  unfold validSequence in Hq.
  rewrite maxMachineID_eq in Hm. rewrite maxDataCenterID_eq in Hdc.
  rewrite maxSequence_eq in Hq.
  unfold signed42. split; intros Ht.
  - rewrite Z.mod_small by lia. lia.
  - replace ((lastTimestamp (outState o) + 2 ^ 41) mod 2 ^ 42)
      with (lastTimestamp (outState o) - 2 ^ 41).
    + lia.
    + apply (Z.mod_unique _ _ 1); lia.
Qed.

Lemma Generate_id_sign_witness :
  0 <= outId (29495296, None,
              {| machineID := 1; dataCenterID := 1; sequence := 0;
                 lastTimestamp := 7 |}, []) < 2 ^ 63 /\
  - 2 ^ 63 <= outId (-9223372036854640640, None,
                     {| machineID := 1; dataCenterID := 1; sequence := 0;
                        lastTimestamp := 2199023255552 |}, []) < 0.
Proof.
  split.
  - apply (Generate_id_sign fresh11 [epoch + 7]).
    + split; split; discriminate.
    + vm_compute. reflexivity.
    + vm_compute. split; [discriminate|reflexivity].
  - apply (Generate_id_sign fresh11 [epoch + 2199023255552]).
    + split; split; discriminate.
    + vm_compute. reflexivity.
    + vm_compute. split; [discriminate|reflexivity].
Defined.

(** ** Further properties of runs *)

(** X8: the generator remembers only its last timestamp: when the clock leaves a
    millisecond and then comes back to it (it went backward in between), the
    call after the return gives again the identifier already given for that
    millisecond. *)
Theorem clock_return_repeats_id (s : Snowflake) (a b : Z) (rest : Clock) :
  timestampOf a <> lastTimestamp s ->
  timestampOf b <> timestampOf a ->
  exists (id id' : Z) (s1 s2 s3 : Snowflake),
    run 3 s (a :: b :: a :: rest)
    = Some ([(id, s1); (id', s2); (id, s3)], s3, rest).
Proof.
  intros Ha Hb. do 5 eexists. unfold run.
  rewrite Generate_other_milli by exact Ha.
  rewrite Generate_other_milli by exact Hb.
  rewrite Generate_other_milli by (cbn; congruence).
  cbn [machineID dataCenterID]. reflexivity.
Qed.

Lemma clock_return_repeats_id_witness :
  exists (id id' : Z) (s1 s2 s3 : Snowflake),
    run 3 fresh11 [epoch + 9; epoch + 4; epoch + 9]
    = Some ([(id, s1); (id', s2); (id, s3)], s3, []).
Proof.
  apply (clock_return_repeats_id fresh11 (epoch + 9) (epoch + 4) []);
    vm_compute; discriminate.
Defined.

(** X9: the readings a call consumes: a non-empty prefix of the clock, whose
    last reading gives the lastTimestamp the call leaves.  The call reads
    more than once only when the sequence has wrapped, and every reading
    before the last then shows the old lastTimestamp. *)
Theorem Generate_consumes (s : Snowflake) (clock : Clock) (o : Outcome) :
  Generate s clock = Some o ->
  exists (waited : Clock) (final : Z),
    clock = waited ++ final :: outClock o /\
    lastTimestamp (outState o) = timestampOf final /\
    Forall (fun r => timestampOf r = lastTimestamp s) waited /\
    (waited <> [] ->
     nextSequence (sequence s) = 0 /\ timestampOf final <> lastTimestamp s).
Proof.
  destruct clock as [|now clock]; [discriminate|].
  destruct (Z.eq_dec (timestampOf now) (lastTimestamp s)) as [Ht|Ht].
  - destruct (Z.eq_dec (nextSequence (sequence s)) 0) as [Hq|Hq].
    + rewrite Generate_wrap by assumption.
      destruct (waitNextMilli _ _ clock) as [[t rest]|] eqn:Hw; [|discriminate].
      intros H; inversion H; subst o; clear H. cbn.
      apply waitNextMilli_inv in Hw.
      destruct Hw as [Hne [[Hsame _]|[_ (stalled & now' & Hc & Hst & Hn)]]];
        [contradiction|].
      exists (now :: stalled), now'. subst clock t.
      repeat split; try assumption; try reflexivity.
      constructor; assumption.
    + rewrite Generate_same_milli by assumption.
      intros H; inversion H; subst o; clear H. cbn.
      exists [], now. repeat split; try (symmetry; assumption).
      * constructor.
      * destruct H; reflexivity.
      * destruct H; reflexivity.
  - rewrite Generate_other_milli by assumption.
    intros H; inversion H; subst o; clear H. cbn.
    exists [], now. repeat split.
    + constructor.
    + destruct H; reflexivity.
    + destruct H; reflexivity.
Qed.

Lemma Generate_consumes_witness :
  exists (waited : Clock) (final : Z),
    [epoch + 10; epoch + 10; epoch + 12; epoch + 13]
    = waited ++ final :: [epoch + 13] /\
    12 = timestampOf final /\
    Forall (fun r => timestampOf r = 10) waited /\
    (waited <> [] ->
     nextSequence 4095 = 0 /\ timestampOf final <> 10).
Proof.
  apply (Generate_consumes
           {| machineID := 1; dataCenterID := 1; sequence := 4095;
              lastTimestamp := 10 |}
           [epoch + 10; epoch + 10; epoch + 12; epoch + 13]
           (compose 12 1 1 0, None,
            {| machineID := 1; dataCenterID := 1; sequence := 0;
               lastTimestamp := 12 |}, [epoch + 13])).
  reflexivity.
Defined.

(** A call whose generator has not used up its sequence reads the clock
    once. *)
Lemma Generate_one_reading (s : Snowflake) (now : Z) (clock : Clock) :
  0 <= sequence s < maxSequence ->
  exists (id : Z) (s' : Snowflake),
    Generate s (now :: clock) = Some (id, None, s', clock) /\
    0 <= sequence s' <= sequence s + 1.
Proof.
  intros Hq.
  destruct (Z.eq_dec (timestampOf now) (lastTimestamp s)) as [Ht|Ht].
  - pose proof (nextSequence_succ (sequence s) Hq) as Hn.
    do 2 eexists. split.
    + apply Generate_same_milli; [assumption|]. rewrite Hn. lia.
    + cbn [sequence]. rewrite Hn. lia.
  - do 2 eexists. split.
    + apply Generate_other_milli. assumption.
    + cbn [sequence]. lia.
Qed.

(** [n] calls that cannot wrap the sequence read [n] readings. *)
Lemma run_reads_each_once (n : nat) :
  forall (s : Snowflake) (clock : Clock),
    0 <= sequence s ->
    sequence s + Z.of_nat n <= maxSequence ->
    (n <= List.length clock)%nat ->
    exists (trace : list (Z * Snowflake)) (s' : Snowflake),
      run n s clock = Some (trace, s', skipn n clock) /\
      List.length trace = n.
Proof.
  induction n as [|n IH]; intros s clock Hq Hmax Hlen.
  - exists [], s. split; reflexivity.
  - destruct clock as [|now clock]; [cbn in Hlen; lia|].
    cbn [List.length] in Hlen.
    destruct (Generate_one_reading s now clock) as (id & s1 & Hg & Hq1); [lia|].
    destruct (IH s1 clock) as (trace & s' & Hr & Hl); [lia|lia|lia|].
    exists ((id, s1) :: trace), s'. cbn [run skipn List.length].
    rewrite Hg, Hr, Hl. split; reflexivity.
Qed.

(** X10: as long as the sequence cannot wrap, calls never wait: [n] calls on a
    generator whose sequence is at most 4095 - n return after reading exactly
    the first [n] readings, whatever these are.  In particular the first 4095
    calls on a fresh generator never wait. *)
Theorem run_never_waits (n : nat) (s : Snowflake) (clock : Clock) :
  0 <= sequence s ->
  sequence s + Z.of_nat n <= 4095 ->
  (n <= List.length clock)%nat ->
  exists (trace : list (Z * Snowflake)) (s' : Snowflake),
    run n s clock = Some (trace, s', skipn n clock) /\
    List.length trace = n.
Proof.
  intros Hq Hmax Hlen.
  apply run_reads_each_once; [exact Hq| |exact Hlen].
  rewrite maxSequence_eq. exact Hmax.
Qed.

Lemma run_never_waits_witness :
  exists (trace : list (Z * Snowflake)) (s' : Snowflake),
    run 3 fresh11 [epoch + 9; epoch + 4; epoch + 4; epoch + 1]
    = Some (trace, s', skipn 3 [epoch + 9; epoch + 4; epoch + 4; epoch + 1]) /\
    List.length trace = 3%nat.
Proof.
  apply (run_never_waits 3 fresh11 [epoch + 9; epoch + 4; epoch + 4; epoch + 1]).
  - discriminate.
  - discriminate.
  - cbn. repeat constructor.
Defined.

(** The identifiers of a run carry the IDs of the generator. *)
Lemma run_fields (n : nat) :
  forall (s : Snowflake) (clock : Clock) trace s' rest,
    validConfig s ->
    run n s clock = Some (trace, s', rest) ->
    Forall (fun id => dataCenterField id = dataCenterID s /\
                      machineField id = machineID s) (idsOf trace).
Proof.
  induction n as [|n IH]; intros s clock trace s' rest Hv H; cbn in H.
  - inversion H; subst. constructor.
  - destruct (Generate s clock) as [[[[id e] s1] clock1]|] eqn:Hg; [|discriminate].
    destruct (run n s1 clock1) as [[[trace1 s2] clock2]|] eqn:Hr; [|discriminate].
    inversion H; subst; clear H.
    destruct (valid_fields s clock _ Hv Hg) as (Hd & Hm & _).
    destruct (Generate_inv s clock _ Hg) as (_ & Em & Edc & _).
    cbn [outState outId fst snd] in *.
    assert (Hv1 : validConfig s1)
      by (unfold validConfig in *; rewrite Em, Edc; exact Hv).
    specialize (IH s1 clock1 trace1 s' rest Hv1 Hr).
    rewrite Em, Edc in IH.
    cbn [idsOf map fst]. constructor; [split; assumption|exact IH].
Qed.

(** The loop of [main] writes one line per identifier of the run: the error
    branch is never taken. *)
Lemma generateLoop_run (n : nat) :
  forall (sf : Snowflake) (clock : Clock),
    generateLoop n sf clock =
    match run n sf clock with
    | Some (trace, _, rest) =>
      Some (map (Printf generatedFormat) (idsOf trace), rest)
    | None => None
    end.
Proof.
  induction n as [|n IH]; intros sf clock; cbn [generateLoop run].
  - reflexivity.
  - destruct (Generate sf clock) as [[[[id e] s1] clock1]|] eqn:Hg; [|reflexivity].
    pose proof (Generate_inv sf clock _ Hg) as (He & _). cbn in He. subst e.
    rewrite IH.
    destruct (run n s1 clock1) as [[[trace s2] clock2]|]; reflexivity.
Qed.

(** ** The program *)

(** X11: whatever the clock reads (also when it stands still or goes backward),
    [main] reads it exactly ten times and writes exactly ten lines, each a
    "Generated ID" line, never an error line; the ten identifiers carry data
    center 1 and machine 1. *)
Theorem main_prints_ten_ids (clock : Clock) :
  (10 <= List.length clock)%nat ->
  exists ids : list Z,
    main clock = Some (map (Printf generatedFormat) ids, skipn 10 clock) /\
    List.length ids = 10%nat /\
    Forall (fun id => dataCenterField id = 1 /\ machineField id = 1) ids.
Proof.
  intros Hlen.
  destruct (run_reads_each_once 10 fresh11 clock) as (trace & s' & Hr & Hl);
    [discriminate|discriminate|exact Hlen|].
  exists (idsOf trace). split; [|split].
  - unfold main. change (NewSnowflake 1 1) with (Some fresh11, @None error).
    cbv iota. rewrite generateLoop_run, Hr. reflexivity.
  - unfold idsOf. rewrite length_map. exact Hl.
  - apply (run_fields 10 fresh11 clock trace s' (skipn 10 clock)); [|exact Hr].
    split; split; discriminate.
Qed.

Lemma main_prints_ten_ids_witness :
  exists ids : list Z,
    main (repeat (epoch + 3) 12)
    = Some (map (Printf generatedFormat) ids, skipn 10 (repeat (epoch + 3) 12)) /\
    List.length ids = 10%nat /\
    Forall (fun id => dataCenterField id = 1 /\ machineField id = 1) ids.
Proof.
  apply (main_prints_ten_ids (repeat (epoch + 3) 12)).
  cbn. repeat constructor.
Defined.

(** X12: on a generator whose fields fit, with a clock that does not regress and
    whose timestamps fit, every call returns an identifier greater, as an
    unsigned 64-bit integer, than the one the call before it returned. *)
Theorem consecutive_ids_increase
  (s : Snowflake) (clock : Clock) (o1 o2 : Outcome) :
  well s ->
  steady (lastTimestamp s) clock ->
  Forall (fun r => fitsTimestamp (timestampOf r)) clock ->
  Generate s clock = Some o1 ->
  Generate (outState o1) (outClock o1) = Some o2 ->
  uint64 (outId o1) < uint64 (outId o2).
Proof.
  intros Hw Hst Hfit H1 H2.
  destruct (Generate_well s clock o1 Hw Hst Hfit H1)
    as (Hw1 & Hst1 & Hfit1 & Em1 & Edc1 & _ & E1).
  destruct (Generate_well _ _ o2 Hw1 Hst1 Hfit1 H2)
    as (Hw2 & _ & _ & Em2 & Edc2 & Hkey & E2).
  destruct Hw as ([Hm Hdc] & _). destruct Hw1 as (_ & Hq1 & Hl1).
  destruct Hw2 as (_ & Hq2 & Hl2).
  rewrite Em1, Edc1 in E2. rewrite !key_eq, Em2, Edc2, Em1, Edc1 in Hkey.
  rewrite E1, E2, !minted_uint64 by assumption. exact Hkey.
Qed.

Lemma consecutive_ids_increase_witness :
  uint64 (outId (29495296, None,
                 {| machineID := 1; dataCenterID := 1; sequence := 0;
                    lastTimestamp := 7 |}, [epoch + 7]))
  < uint64 (outId (29495297, None,
                   {| machineID := 1; dataCenterID := 1; sequence := 1;
                      lastTimestamp := 7 |}, [])).
Proof.
  apply (consecutive_ids_increase fresh11 [epoch + 7; epoch + 7]).
  - split; [split; split; discriminate|]. split; [split; discriminate|].
    split; [discriminate|reflexivity].
  - unfold steady. vm_compute. repeat constructor; discriminate.
  - repeat constructor; vm_compute; discriminate.
  - vm_compute. reflexivity.
  - vm_compute. reflexivity.
Defined.
